(** * Gaxtapper: the identification-and-patch engine of [gax_driver.cpp]

    A shallow embedding of [GaxDriver] (src/gaxtapper/gax_driver.cpp): the
    signature scanner, the version-text finder and parser, the work-RAM
    pointer probe, the GSF driver installer and the minigsf parameter block.

    Conventions.
    - A ROM image, a [std::string] or a [std::string_view] is a [list byte].
    - [agbptr_t], [agbsize_t] and the other fixed-width integers are [Z];
      wrap-around is written out where the code relies on it.
    - Positions inside a buffer ([size_type]) are [nat]; [npos] is [None].
    - A call either returns, throws a C++ exception, or touches memory
      outside a buffer ([outcome]). *)

From Stdlib Require Import String ZArith List Lia Bool.
From Stdlib Require Strings.Byte.
From coqutil Require Import Byte Word.LittleEndianList.
Import ListNotations.
Import Init.Byte.
Local Open Scope Z_scope.
Set Default Proof Using "Type".

(* ===================================================================== *)
(** ** Outcomes of a call *)
(* ===================================================================== *)

Inductive exception : Type :=
| invalid_argument (what : string)
| out_of_range (what : string).

Inductive outcome (A : Type) : Type :=
| Returned (a : A)
| Thrown (e : exception)
| OutOfBounds.

Arguments Returned {A} a.
Arguments Thrown {A} e.
Arguments OutOfBounds {A}.

Definition bind {A B : Type} (m : outcome A) (k : A -> outcome B) : outcome B :=
  match m with
  | Returned a => k a
  | Thrown e => Thrown e
  | OutOfBounds => OutOfBounds
  end.

Notation "x <- m ;; k" := (bind m (fun x => k))
  (at level 61, m at next level, right associativity).

(** An access through [operator[]] or a raw pointer: outside the buffer it
    is undefined behaviour, which the model records as [OutOfBounds]. *)
Definition access {A : Type} (o : option A) : outcome A :=
  match o with
  | Some a => Returned a
  | None => OutOfBounds
  end.

(* ===================================================================== *)
(** ** [std::string_view] operations used by the driver *)
(* ===================================================================== *)

Fixpoint starts_with (pat s : list byte) : bool :=
  match pat, s with
  | [], _ => true
  | p :: pat', c :: s' => Byte.eqb p c && starts_with pat' s'
  | _ :: _, [] => false
  end.

(** Scan [s], whose first byte sits at position [i] of the whole view. *)
Fixpoint find_from (pat s : list byte) (i : nat) : option nat :=
  if starts_with pat s then Some i
  else match s with
       | [] => None
       | _ :: s' => find_from pat s' (S i)
       end.

(** [sv.find(pat, pos)]: the lowest position [>= pos] at which [pat]
    occurs, [npos] when there is none or when [pos > sv.size()]. *)
Definition sv_find (s pat : list byte) (pos : nat) : option nat :=
  if (pos <=? length s)%nat then find_from pat (skipn pos s) pos else None.

Fixpoint find_char_from (c : byte) (s : list byte) (i : nat) : option nat :=
  match s with
  | [] => None
  | b :: s' => if Byte.eqb b c then Some i else find_char_from c s' (S i)
  end.

(** [sv.find_first_of(c)]. *)
Definition sv_find_first_of (s : list byte) (c : byte) : option nat :=
  find_char_from c s 0.

(** [size_type] is unsigned; the driver subtracts from it once. *)
Definition size_wrap (z : Z) : Z := z mod 2 ^ 64.

(** [sv.substr(pos, count)]: throws [std::out_of_range] when
    [pos > sv.size()], otherwise the view of
    [min(count, sv.size() - pos)] bytes starting at [pos]. *)
Definition sv_substr (s : list byte) (pos : nat) (count : Z) : outcome (list byte) :=
  if (pos <=? length s)%nat
  then Returned (firstn (Z.to_nat (Z.min count (Z.of_nat (length s - pos))))
                        (skipn pos s))
  else Thrown (out_of_range "basic_string_view::substr").

(** What "pattern [pat] occurs in [s] at position [i]" means. *)
Definition occurs_at (s pat : list byte) (i : nat) : Prop :=
  exists pre post, s = pre ++ pat ++ post /\ length pre = i.

(** [i] is where [sv.find(pat, pos)] has to land: the first occurrence at
    or after [pos]. *)
Definition first_occurrence (s pat : list byte) (pos i : nat) : Prop :=
  (pos <= i)%nat /\ occurs_at s pat i /\
  forall j, (pos <= j < i)%nat -> ~ occurs_at s pat j.

(* ===================================================================== *)
(** ** Address space ([types.hpp]) *)
(* ===================================================================== *)

Definition wrap32 (z : Z) : Z := z mod 2 ^ 32.

(** Modelled from the spec: [types.hpp] is not part of the sources. Section
    4.1 gives the contract: [is_romptr], [is_iwramptr] and [is_ewramptr] are
    predicates on the high byte(s) of a 32-bit address (ROM mirrored at two
    high-byte values, fast on-chip RAM, slower external RAM), [to_offset]
    strips the region tag to a flat byte offset and [to_romptr] re-tags an
    offset as a ROM address. The numbers are the platform's memory map. *)
Definition is_romptr (addr : Z) : bool :=
  Z.land addr 0xFE000000 =? 0x08000000.

(** Modelled from the spec: [is_iwramptr] of [types.hpp] (section 4.1), the
    test for the fast on-chip RAM region, high byte 0x03. *)
Definition is_iwramptr (addr : Z) : bool :=
  Z.land addr 0xFF000000 =? 0x03000000.

(** Modelled from the spec: [is_ewramptr] of [types.hpp] (section 4.1), the
    test for the slower external RAM region, high byte 0x02. *)
Definition is_ewramptr (addr : Z) : bool :=
  Z.land addr 0xFF000000 =? 0x02000000.

(** Modelled from the spec: [to_offset] of [types.hpp] (section 4.1), which
    strips the region tag of an address and leaves a flat byte offset. *)
Definition to_offset (addr : Z) : Z := Z.land addr 0x1FFFFFF.

(** Modelled from the spec: [to_romptr] of [types.hpp] (section 4.1), which
    re-tags a flat byte offset as a ROM address. *)
Definition to_romptr (offset : Z) : Z :=
  Z.lor 0x8000000 (Z.land offset 0x1FFFFFF).

(* ===================================================================== *)
(** ** Byte access ([bytes.hpp]) *)
(* ===================================================================== *)

Definition read_bytes (m : list byte) (i n : nat) : option (list byte) :=
  if (i + n <=? length m)%nat then Some (firstn n (skipn i m)) else None.

(** The buffer [m] with the bytes [bs] stored at position [i]. *)
Definition splice (m : list byte) (i : nat) (bs : list byte) : list byte :=
  firstn i m ++ bs ++ skipn (i + length bs) m.

Definition write_bytes (m : list byte) (i : nat) (bs : list byte)
  : option (list byte) :=
  if (i + length bs <=? length m)%nat then Some (splice m i bs) else None.

Definition splice_all (m : list byte) (ws : list (nat * list byte))
  : list byte :=
  fold_left (fun m' w => splice m' (fst w) (snd w)) ws m.

Definition in_range (m : list byte) (ws : list (nat * list byte)) : Prop :=
  Forall (fun w => (fst w + length (snd w) <= length m)%nat) ws.

(** The byte that a run of stores leaves at position [j], when one of them
    covers [j]: the last store that covers it decides. *)
Fixpoint written (ws : list (nat * list byte)) (j : nat) : option byte :=
  match ws with
  | [] => None
  | (i, bs) :: ws' =>
      match written ws' j with
      | Some b => Some b
      | None =>
          if ((i <=? j) && (j <? i + length bs))%nat
          then nth_error bs (j - i)
          else None
      end
  end.

(** Code that writes in place: the buffer it writes to is threaded as a
    state, and a call that fails leaves the buffer as it was at the point
    of failure. *)
Definition inplace (A : Type) : Type := list byte -> list byte * outcome A.

Definition ret {A : Type} (a : A) : inplace A := fun m => (m, Returned a).

Definition throw {A : Type} (e : exception) : inplace A :=
  fun m => (m, Thrown e).

Definition seq {A B : Type} (c : inplace A) (k : A -> inplace B) : inplace B :=
  fun m =>
    match c m with
    | (m', Returned a) => k a m'
    | (m', Thrown e) => (m', Thrown e)
    | (m', OutOfBounds) => (m', OutOfBounds)
    end.

Notation "x <~ c ;; k" := (seq c (fun x => k))
  (at level 61, c at next level, right associativity).
Notation "c1 ;;; c2" := (seq c1 (fun _ => c2))
  (at level 61, right associativity).

(** [buffer.size()]. *)
Definition buffer_size : inplace nat := fun m => (m, Returned (length m)).

(** Store [bs] at position [i] of the buffer. *)
Definition store (i : nat) (bs : list byte) : inplace unit :=
  fun m =>
    match write_bytes m i bs with
    | Some m' => (m', Returned tt)
    | None => (m, OutOfBounds)
    end.

(** A run of stores, in program order. *)
Fixpoint stores (ws : list (nat * list byte)) : inplace unit :=
  match ws with
  | [] => ret tt
  | (i, bs) :: ws' => store i bs ;;; stores ws'
  end.

(** Modelled from the spec: [bytes.hpp] is not part of the sources. The
    readers and writers are the little-endian fixed-width accessors that
    section 4.5 describes ("fields little-endian in fixed positions"); each
    one touches [width / 8] bytes at the given position of the buffer. *)
Definition ReadInt8 (m : list byte) (i : nat) : outcome Z :=
  access (option_map le_combine (read_bytes m i 1)).

(** Modelled from the spec: [ReadInt32L] of [bytes.hpp], 4 bytes read
    little-endian. *)
Definition ReadInt32L (m : list byte) (i : nat) : outcome Z :=
  access (option_map le_combine (read_bytes m i 4)).

(** Modelled from the spec: [ReadInt16L] of [bytes.hpp], 2 bytes read
    little-endian. *)
Definition ReadInt16L (m : list byte) (i : nat) : outcome Z :=
  access (option_map le_combine (read_bytes m i 2)).

(** Modelled from the spec: [WriteInt8] of [bytes.hpp], 1 byte stored. *)
Definition WriteInt8 (i : nat) (v : Z) : inplace unit :=
  store i (le_split 1 v).

(** Modelled from the spec: [WriteInt16L] of [bytes.hpp], 2 bytes stored
    little-endian. *)
Definition WriteInt16L (i : nat) (v : Z) : inplace unit :=
  store i (le_split 2 v).

(** Modelled from the spec: [WriteInt32L] of [bytes.hpp], 4 bytes stored
    little-endian. *)
Definition WriteInt32L (i : nat) (v : Z) : inplace unit :=
  store i (le_split 4 v).

(** [std::memcpy(&buffer[i], block.data(), block.size())]. *)
Definition memcpy (i : nat) (block : list byte) : inplace unit :=
  store i block.

(* ===================================================================== *)
(** ** Signature tables *)
(* ===================================================================== *)

Definition kVersionTextPrefixPattern : list byte :=
  list_byte_of_string "GAX Sound Engine ".

Definition FindGax2Estimate_patterns : list (list byte) :=
  [[xf0; xb5; x57; x46; x4e; x46; x45; x46; xe0; xb4; x82; xb0; x07; x1c; x00; x24; x00; x20; x00; x90];
   [xf0; xb5; x57; x46; x4e; x46; x45; x46; xe0; xb4; x8b; xb0; x00; x90; x00; x20; x80; x46; x00; x21];
   [xf0; xb5; x57; x46; x4e; x46; x45; x46; xe0; xb4; x8a; xb0; x81; x46; x00; x27; x00; x20; x02; x90];
   [xf0; xb5; x57; x46; x4e; x46; x45; x46; xe0; xb4; x88; xb0; x00; x90; x00; x27; x00; x20; x02; x90];
   [xf0; xb5; x57; x46; x4e; x46; x45; x46; xe0; xb4; x87; xb0; x00; x90; x00; x27; x00; x20; x02; x90]].

Definition FindGax2New_patterns : list (list byte) :=
  [[xf0; xb5; x47; x46; x80; xb4; x81; xb0; x06; x1c; x00; x2e];
   [x10; xb5; x04; x1c; x00; x2c; x09; xd1; x02; x48; x03; x49]].

Definition FindGax2Init_patterns : list (list byte) :=
  [[xf0; xb5; x57; x46; x4e; x46; x45; x46; xe0; xb4; x81; xb0; x07; x1c; x00; x26; x0e; x48; x39; x68];
   [xf0; xb5; x57; x46; x4e; x46; x45; x46; xe0; xb4; x81; xb0; x07; x1c; x00; x22; x0e; x48; x39; x68];
   [xf0; xb5; x57; x46; x4e; x46; x45; x46; xe0; xb4; x86; xb0; x07; x1c; x00; x20; x05; x90; x3a; x68];
   [xf0; xb5; x57; x46; x4e; x46; x45; x46; xe0; xb4; x84; xb0; x07; x1c; x00; x20; x82; x46; x3c; x68];
   [xf0; xb5; x57; x46; x4e; x46; x45; x46; xe0; xb4; x84; xb0; x07; x1c; x00; x20; x81; x46; x3b; x68];
   [xf0; xb5; x57; x46; x4e; x46; x45; x46; xe0; xb4; x83; xb0; x07; x1c; x00; x20; x81; x46; x3b; x68]].

Definition FindGaxIrq_patterns : list (list byte) :=
  [[xf0; xb5; x3b; x48; x02; x68; x11; x68; x3a; x48; x81; x42; x6d; xd1; x50; x6d; x00; x28; x6a; xd0; x50; x6d; x01; x28; x1a; xd1; x02; x20; x50; x65; x36; x49];
   [xf0; xb5; x33; x48; x03; x68; x1a; x68; x32; x49; x07; x1c; x8a; x42; x5b; xd1; x58; x6d; x00; x28; x58; xd0; x58; x6d; x01; x28; x1a; xd1; x02; x20; x58; x65];
   [xf0; xb5; x3f; x48; x02; x68; x11; x68; x3e; x48; x81; x42; x75; xd1; x90; x6b; x00; x28; x72; xd0; x90; x6b; x01; x28; x1a; xd1; x3b; x49; x80; x20; x08; x80];
   [x10; xb5; x27; x4c; x23; x68; x19; x68; x26; x48; x81; x42; x44; xd1; x18; x6b; x00; x28; x41; xd0; x18; x6b; x01; x28; x10; xd1; x23; x49; x80; x20; x08; x80];
   [x10; xb5; x25; x4c; x23; x68; x19; x68; x24; x48; x81; x42; x40; xd1; x18; x6b; x00; x28; x3d; xd0; x18; x6b; x01; x28; x10; xd1; x21; x49; x80; x20; x08; x80]].

Definition FindGaxPlay_patterns : list (list byte) :=
  [[x70; xb5; x81; xb0; x47; x48; x01; x68; x48; x6d; x00; x28; x00; xd1];
   [xf0; xb5; x81; xb0; x3a; x48; x01; x68; x88; x6b; x00; x28; x00; xd1];
   [xf0; xb5; x30; x4d; x29; x68; x88; x6b; x00; x28; x00; xd1; xd4; xe0];
   [x70; xb5; x4c; x4e; x31; x68; x08; x6b; x00; x28; x00; xd1; x8e; xe0]].

(* ===================================================================== *)
(** ** Records of the driver *)
(* ===================================================================== *)

(** [GaxVersion]: [GaxVersion{}] is the unknown version. *)
Record GaxVersion : Type := {
  major_version : Z;
  minor_version : Z
}.

Definition GaxVersion_unknown : GaxVersion :=
  {| major_version := 0; minor_version := 0 |}.

(** [GaxMusicEntry], as [WriteGaxSongsAsTable] reads it. *)
Record GaxMusicEntry : Type := {
  parsed_name : string;
  parsed_artist : string;
  name : string;
  address : Z
}.

(** [GaxDriverParam]: what [Inspect] collects and [InstallGsfDriver] reads. *)
Record GaxDriverParam : Type := {
  version_text : list byte;
  version : GaxVersion;
  gax2_estimate : Z;
  gax2_new : Z;
  gax2_init : Z;
  gax_irq : Z;
  gax_play : Z;
  gax_wram_pointer : Z;
  songs : list GaxMusicEntry
}.

(** [param.set_gax2_estimate(a)]. *)
Definition set_gax2_estimate (param : GaxDriverParam) (a : Z) : GaxDriverParam :=
  {| version_text := version_text param;
     version := version param;
     gax2_estimate := a;
     gax2_new := gax2_new param;
     gax2_init := gax2_init param;
     gax_irq := gax_irq param;
     gax_play := gax_play param;
     gax_wram_pointer := gax_wram_pointer param;
     songs := songs param |}.

(** [GaxMinigsfDriverParam]: one track's parameters. *)
Record GaxMinigsfDriverParam : Type := {
  song : GaxMusicEntry;
  fx : option GaxMusicEntry;
  fxid : Z;
  flags : Z;
  mixing_rate : Z;
  volume : Z
}.

(** The two driver templates and the positions patched inside them
    ([gax_driver.hpp], which is not part of the sources): supplied data. *)
Class DriverBlocks : Type := {
  gax3_driver_block : list byte;
  gax2_driver_block : list byte;
  kGax2EstimateOffsetV3 : nat;
  kGax2NewOffsetV3 : nat;
  kGax2InitOffsetV3 : nat;
  kGaxIrqOffsetV3 : nat;
  kGaxPlayOffsetV3 : nat;
  kMyWorkRamOffsetV3 : nat;
  kGax2ParamFxImmOffsetV3 : nat;
  kGax2NewOffsetV2 : nat;
  kGax2InitOffsetV2 : nat;
  kGaxIrqOffsetV2 : nat;
  kGaxPlayOffsetV2 : nat;
  kMyWorkRamOffsetV2 : nat;
  kMyWorkRamSizeOffsetV2 : nat
}.

(** Modelled from the spec: the layout constants of the minigsf block are
    declared in [gax_driver.hpp], which is not part of the sources. Section
    4.5 fixes a 20-byte block holding, in this order, the track address
    (4 bytes), the effect address (4), the effect id (2), the flags (2), the
    mixing rate (2) and the volume (2). *)
Definition kMinigsfParamSize : nat := 20.

(** Modelled from the spec: position of the track address (section 4.5). *)
Definition kMinigsfParamMyMusicOffset : nat := 0.

(** Modelled from the spec: position of the effect address (section 4.5). *)
Definition kMinigsfParamMyFxOffset : nat := 4.

(** Modelled from the spec: position of the effect id (section 4.5). *)
Definition kMinigsfParamMyFxIdOffset : nat := 8.

(** Modelled from the spec: position of the flags (section 4.5). *)
Definition kMinigsfParamMyFlagsOffset : nat := 10.

(** Modelled from the spec: position of the mixing rate (section 4.5). *)
Definition kMinigsfParamMyMixingRateOffset : nat := 12.

(** Modelled from the spec: position of the volume (section 4.5). *)
Definition kMinigsfParamMyVolumeOffset : nat := 14.

Definition endl : string := String (Ascii.ascii_of_nat 10) EmptyString.

(** The fields of a [GaxMinigsfDriverParam] have fixed widths: the
    addresses are 32-bit values, the other four are 16-bit values. *)
Definition minigsf_fields_fit (param : GaxMinigsfDriverParam) : Prop :=
  0 <= address (song param) < 2 ^ 32 /\
  match fx param with
  | Some e => 0 <= address e < 2 ^ 32
  | None => True
  end /\
  0 <= fxid param < 2 ^ 16 /\
  0 <= flags param < 2 ^ 16 /\
  0 <= mixing_rate param < 2 ^ 16 /\
  0 <= volume param < 2 ^ 16.

(* ===================================================================== *)
(** ** Version text *)
(* ===================================================================== *)

Definition is_digit (b : byte) : bool :=
  (48 <=? byte.unsigned b) && (byte.unsigned b <=? 57).

(** The longest run of decimal digits at the head of [s], as a number,
    and what follows it; [None] when [s] does not start with a digit. *)
Fixpoint read_digits (s : list byte) (acc : option Z) : option Z * list byte :=
  match s with
  | b :: s' =>
      if is_digit b
      then read_digits s' (Some (10 * match acc with Some a => a | None => 0 end
                                 + (byte.unsigned b - 48)))
      else (acc, s)
  | [] => (acc, s)
  end.

(** Modelled from the spec: [GaxVersion::Parse] is declared in a header
    that is not part of the sources. Section 4.3: it "parses the remaining
    digits/dots from that position as the version" and "returns the unknown
    version on any parse failure (never throws)"; property 7 reads "3.05"
    as major 3, minor 5. The model reads a decimal major number, a dot and a
    decimal minor number, and ignores what follows. *)
Definition GaxVersion_Parse (text : list byte) (offset : nat) : GaxVersion :=
  match read_digits (skipn offset text) None with
  | (Some major, x2e :: rest) =>
      match read_digits rest None with
      | (Some minor, _) => {| major_version := major; minor_version := minor |}
      | (None, _) => GaxVersion_unknown
      end
  | _ => GaxVersion_unknown
  end.

Definition ParseVersionText (version_text : list byte) : outcome GaxVersion :=
  if (length version_text <? length kVersionTextPrefixPattern + 1)%nat
  then Returned GaxVersion_unknown
  else
    c <- access (nth_error version_text (length kVersionTextPrefixPattern)) ;;
    let v := if Byte.eqb c x76 || Byte.eqb c x56 then 1%nat else 0%nat in
    Returned (GaxVersion_Parse version_text
                (length kVersionTextPrefixPattern + v)).

Definition FindGaxVersionText (rom : list byte) (offset : nat)
  : outcome (list byte) :=
  match sv_find rom kVersionTextPrefixPattern offset with
  | None => Returned []
  | Some start_offset =>
      (* Limit the maximum length of the text for safety and speed. *)
      version_text_with_noise <- sv_substr rom start_offset 128 ;;
      (* Get the null-terminated string. *)
      full_version_text <-
        match sv_find_first_of version_text_with_noise x00 with
        | Some end_offset =>
            sv_substr version_text_with_noise 0 (Z.of_nat end_offset)
        | None => Returned version_text_with_noise
        end ;;
      (* Trim the copyright part. *)
      match sv_find_first_of full_version_text xa9 with
      | Some copyright_offset =>
          sv_substr full_version_text 0
            (Z.max 0 (size_wrap (Z.of_nat copyright_offset - 1)))
      | None => Returned full_version_text
      end
  end.

(** The bytes of [s] before the first byte [c]; all of [s] when [c] is not
    in it. *)
Fixpoint before_byte (c : byte) (s : list byte) : list byte :=
  match s with
  | [] => []
  | b :: s' => if Byte.eqb b c then [] else b :: before_byte c s'
  end.

(** Cut a text at the copyright sign, together with the byte before it. *)
Definition trim_copyright (text : list byte) : list byte :=
  if existsb (fun b => Byte.eqb b xa9) text
  then removelast (before_byte xa9 text)
  else text.

(** The version text in the words of section 4.3, for a marker found at
    [start]: at most 128 bytes, cut at the first null byte, then cut at the
    copyright sign. [version_text_following_marker] takes the 128 bytes that
    follow the marker, as the section says; [version_text_from_marker] takes
    them from the first byte of the marker on. *)
Definition version_text_following_marker (rom : list byte) (start : nat)
  : list byte :=
  trim_copyright
    (before_byte x00
       (firstn 128 (skipn (start + length kVersionTextPrefixPattern) rom))).

Definition version_text_from_marker (rom : list byte) (start : nat)
  : list byte :=
  trim_copyright (before_byte x00 (firstn 128 (skipn start rom))).

(* ===================================================================== *)
(** ** Sample inputs *)
(* ===================================================================== *)

(** Values for what the sources leave to other files, used to run the
    driver on concrete inputs: a null sentinel, the ARM branch encoder, a
    table printer, a completeness test and a song scanner. *)
Definition sample_null : Z := 0xFFFFFFFF.

Definition sample_make_arm_b (from to : Z) : Z :=
  Z.lor 0xEA000000 (Z.land (Z.shiftr (to - from - 8) 2) 0xFFFFFF).

Definition sample_table (param : GaxDriverParam) : string := "".

Definition sample_minigsf_table (param : GaxMinigsfDriverParam) : string := "".

Definition sample_minigsf_ok (param : GaxMinigsfDriverParam) : bool :=
  negb (address (song param) =? sample_null).

Definition sample_Scan (rom : list byte) (v : GaxVersion)
  : list GaxMusicEntry := [].

(** Two 40-byte templates with their patch positions. *)
Definition sample_blocks : DriverBlocks := {|
  gax3_driver_block := repeat xcc 40;
  gax2_driver_block := repeat xdd 40;
  kGax2EstimateOffsetV3 := 8;
  kGax2NewOffsetV3 := 12;
  kGax2InitOffsetV3 := 16;
  kGaxIrqOffsetV3 := 20;
  kGaxPlayOffsetV3 := 24;
  kMyWorkRamOffsetV3 := 28;
  kGax2ParamFxImmOffsetV3 := 4;
  kGax2NewOffsetV2 := 8;
  kGax2InitOffsetV2 := 12;
  kGaxIrqOffsetV2 := 16;
  kGaxPlayOffsetV2 := 20;
  kMyWorkRamOffsetV2 := 24;
  kMyWorkRamSizeOffsetV2 := 28
|}.

(** A 64-byte image of zeros, and complete records of a major-3 and of a
    major-2 engine whose detected work-RAM pointer is 0x3000010. *)
Definition sample_image : list byte := repeat x00 64.

Definition sample_param (major minor : Z) : GaxDriverParam := {|
  version_text := [];
  version := {| major_version := major; minor_version := minor |};
  gax2_estimate := 0x8001000;
  gax2_new := 0x8002000;
  gax2_init := 0x8003000;
  gax_irq := 0x8004000;
  gax_play := 0x8005000;
  gax_wram_pointer := 0x3000010;
  songs := []
|}.

(** A track at 0x8123456 with effect id 7, flags 1, mixing rate 15769 and
    volume 256, and no effect address. *)
Definition sample_minigsf_param : GaxMinigsfDriverParam := {|
  song := {| parsed_name := ""; parsed_artist := ""; name := "";
             address := 0x8123456 |};
  fx := None;
  fxid := 7;
  flags := 1;
  mixing_rate := 15769;
  volume := 256
|}.

(** The marker followed by "v3.05" and a null byte (property 7 of the
    spec). *)
Definition sample_version_image : list byte :=
  kVersionTextPrefixPattern ++ list_byte_of_string "v3.05" ++ [x00].

(** An image of 245 bytes, all zero but byte 2, which is 0x4c. *)
Definition sample_short_image : list byte :=
  [x00; x00; x4c] ++ repeat x00 242.

(** An image of 300 bytes: the GAX 2.1 pattern of [gax2_estimate], then the
    GAX 2.1 pattern of [gax_play] at offset 20, then zeros. *)
Definition sample_gax21_image : list byte :=
  [xf0; xb5; x57; x46; x4e; x46; x45; x46; xe0; xb4; x88; xb0; x00; x90; x00;
   x27; x00; x20; x02; x90]
  ++ [x70; xb5; x4c; x4e; x31; x68; x08; x6b; x00; x28; x00; xd1; x8e; xe0]
  ++ repeat x00 266.

(** An image of 64 bytes: 8 zeros, the GAX 3 pattern of [gax2_estimate] at
    offset 8, the GAX 2.3/3 pattern of [gax2_new] at offset 28, zeros. *)
Definition sample_gax3_image : list byte :=
  repeat x00 8
  ++ [xf0; xb5; x57; x46; x4e; x46; x45; x46; xe0; xb4; x82; xb0; x07; x1c; x00;
      x24; x00; x20; x00; x90]
  ++ [xf0; xb5; x47; x46; x80; xb4; x81; xb0; x06; x1c; x00; x2e]
  ++ repeat x00 24.

(** What [Inspect] finds in [sample_gax3_image] under [sample_null]. *)
Definition sample_inspected : GaxDriverParam := {|
  version_text := [];
  version := GaxVersion_unknown;
  gax2_estimate := 0x8000008;
  gax2_new := 0x800001C;
  gax2_init := sample_null;
  gax_irq := sample_null;
  gax_play := sample_null;
  gax_wram_pointer := sample_null;
  songs := []
|}.

(** An image of 245 zero bytes. *)
Definition sample_zero_image : list byte := repeat x00 245.

(** The sample track again, with an effect at address 0. *)
Definition sample_minigsf_param_fx0 : GaxMinigsfDriverParam := {|
  song := {| parsed_name := ""; parsed_artist := ""; name := "";
             address := 0x8123456 |};
  fx := Some {| parsed_name := "fx"; parsed_artist := ""; name := "fx";
                address := 0 |};
  fxid := 7;
  flags := 1;
  mixing_rate := 15769;
  volume := 256
|}.

(** Whether every pattern of a table starts with a byte other than zero. *)
Definition nonzero_heads (patterns : list (list byte)) : bool :=
  forallb (fun pattern =>
             match pattern with
             | c :: _ => negb (Byte.eqb c x00)
             | [] => false
             end) patterns.

(** The size of the ROM window of the address space, in bytes. *)
Definition rom_window : nat := Z.to_nat 0x2000000.

(** 320 bytes: the GAX 2.3/3 pattern of [gax2_new] at offset 0, the GAX 3
    pattern of [gax2_estimate] at offset 50, zeros elsewhere. *)
Definition sample_tail : list byte :=
  [xf0; xb5; x47; x46; x80; xb4; x81; xb0; x06; x1c; x00; x2e]
  ++ repeat x00 38
  ++ [xf0; xb5; x57; x46; x4e; x46; x45; x46; xe0; xb4; x82; xb0; x07; x1c; x00;
      x24; x00; x20; x00; x90]
  ++ repeat x00 250.

(** An image longer than the ROM window: 0x2000000 zero bytes, then
    [sample_tail]. The pattern of [gax2_new] sits at offset 0x2000000, the
    pattern of [gax2_estimate] at offset 0x2000032. *)
Definition sample_large_image : list byte :=
  repeat x00 rom_window ++ sample_tail.

(* ===================================================================== *)
(** ** The driver *)
(* ===================================================================== *)

Section Driver.

(** [agbnullptr] ([types.hpp]): the sentinel "null address". *)
Variable agbnullptr : Z.

(** [make_arm_b(from, to)] ([arm.hpp]): the encoder of one ARM branch. *)
Variable make_arm_b : Z -> Z -> Z.

(** [GaxDriverParam::WriteAsTable] and [GaxMinigsfDriverParam::WriteAsTable],
    as the text they append to a stream. *)
Variable WriteAsTable : GaxDriverParam -> string.
Variable MinigsfWriteAsTable : GaxMinigsfDriverParam -> string.

(** [GaxMinigsfDriverParam::ok]. *)
Variable minigsf_ok : GaxMinigsfDriverParam -> bool.

(** [GaxMusicEntry::Scan]: the song-table scanner. *)
Variable Scan : list byte -> GaxVersion -> list GaxMusicEntry.

Context {blocks : DriverBlocks}.

(** The loop shared by the five finders: the patterns in listed order, the
    first one that [rom.find] locates decides. *)
Fixpoint find_patterns (rom : list byte) (offset : nat)
  (patterns : list (list byte)) : option nat :=
  match patterns with
  | [] => None
  | pattern :: rest =>
      match sv_find rom pattern offset with
      | Some start_offset => Some start_offset
      | None => find_patterns rom offset rest
      end
  end.

Definition find_entry (patterns : list (list byte)) (rom : list byte)
  (offset : nat) : Z :=
  match find_patterns rom offset patterns with
  | Some start_offset => to_romptr (wrap32 (Z.of_nat start_offset))
  | None => agbnullptr
  end.

Definition FindGax2Estimate := find_entry FindGax2Estimate_patterns.
Definition FindGax2New := find_entry FindGax2New_patterns.
Definition FindGax2Init := find_entry FindGax2Init_patterns.
Definition FindGaxIrq := find_entry FindGaxIrq_patterns.
Definition FindGaxPlay := find_entry FindGaxPlay_patterns.

(** The five entry points, to speak about every finder at once. *)
Inductive entry_point : Type :=
| Gax2Estimate | Gax2New | Gax2Init | GaxIrq | GaxPlay.

Definition patterns_of (e : entry_point) : list (list byte) :=
  match e with
  | Gax2Estimate => FindGax2Estimate_patterns
  | Gax2New => FindGax2New_patterns
  | Gax2Init => FindGax2Init_patterns
  | GaxIrq => FindGaxIrq_patterns
  | GaxPlay => FindGaxPlay_patterns
  end.

Definition finder_of (e : entry_point) : list byte -> nat -> Z :=
  match e with
  | Gax2Estimate => FindGax2Estimate
  | Gax2New => FindGax2New
  | Gax2Init => FindGax2Init
  | GaxIrq => FindGaxIrq
  | GaxPlay => FindGaxPlay
  end.

Definition FindGaxWorkRamPointerV2 (rom : list byte) (gax_play : Z)
  : outcome Z :=
  if gax_play =? agbnullptr then Returned agbnullptr
  else
    let gax_play_offset := to_offset gax_play in
    if wrap32 (gax_play_offset + 0xf4) >=? Z.of_nat (length rom)
    then Returned agbnullptr
    else
      rel <- ReadInt8 rom (Z.to_nat (wrap32 (gax_play_offset + 2))) ;;
      let offset :=
        if rel =? 0x30 then 0xc4 else if rel =? 0x4c then 0x134 else 0xf0 in
      ptr <- ReadInt32L rom (Z.to_nat (wrap32 (gax_play_offset + offset))) ;;
      Returned (if is_ewramptr ptr || is_iwramptr ptr then ptr else agbnullptr).

Definition FindGaxWorkRamPointerV3 (rom : list byte) (gax_play : Z)
  : outcome Z :=
  if gax_play =? agbnullptr then Returned agbnullptr
  else
    let offset := to_offset (wrap32 (gax_play + 0x124)) in
    if wrap32 (offset + 4) >=? Z.of_nat (length rom)
    then Returned agbnullptr
    else
      ptr <- ReadInt32L rom (Z.to_nat offset) ;;
      Returned (if is_ewramptr ptr || is_iwramptr ptr then ptr else agbnullptr).

Definition FindGaxWorkRamPointer (rom : list byte) (version : GaxVersion)
  (gax_play : Z) : outcome Z :=
  if major_version version =? 3
  then FindGaxWorkRamPointerV3 rom gax_play
  else FindGaxWorkRamPointerV2 rom gax_play.

(** [Inspect]: the finders that take a lower bound default it to 0 when
    [Inspect] leaves it out. *)
Definition Inspect (rom : list byte) : outcome GaxDriverParam :=
  version_text <- FindGaxVersionText rom 0 ;;
  version <- ParseVersionText version_text ;;
  let gax2_estimate := FindGax2Estimate rom 0 in
  let code_offset := Z.to_nat (to_offset gax2_estimate) in
  let gax2_new := FindGax2New rom code_offset in
  let gax2_init := FindGax2Init rom code_offset in
  let gax_irq := FindGaxIrq rom code_offset in
  let gax_play := FindGaxPlay rom code_offset in
  gax_wram_pointer <- FindGaxWorkRamPointer rom version gax_play ;;
  Returned {| version_text := version_text;
              version := version;
              gax2_estimate := gax2_estimate;
              gax2_new := gax2_new;
              gax2_init := gax2_init;
              gax_irq := gax_irq;
              gax_play := gax_play;
              gax_wram_pointer := gax_wram_pointer;
              songs := Scan rom version |}.

(** Modelled from the spec: [GaxDriverParam::ok] is declared in
    [gax_driver_param.hpp], which is not part of the sources. Section 3: the
    record is complete "iff version is non-zero and all five entry-point
    addresses are non-null". *)
Definition GaxDriverParam_ok (param : GaxDriverParam) : bool :=
  negb ((major_version (version param) =? 0)
        && (minor_version (version param) =? 0))
  && negb (gax2_estimate param =? agbnullptr)
  && negb (gax2_new param =? agbnullptr)
  && negb (gax2_init param =? agbnullptr)
  && negb (gax_irq param =? agbnullptr)
  && negb (gax_play param =? agbnullptr).

(** Modelled from the spec: [gsf_driver_size] is declared in
    [gax_driver.hpp], which is not part of the sources. Section 4.4 calls it
    [templateSize(record.version)]: the size of the template that the major
    version selects. *)
Definition gsf_driver_size (v : GaxVersion) : nat :=
  if major_version v =? 3
  then length gax3_driver_block
  else length gax2_driver_block.

(** Lines 54-65 of [InstallGsfDriver]: the work address that gets patched
    in. [~0xFFFFFF] is an [int]; converted to [agbptr_t] it is 0xFF000000. *)
Definition resolve_work_address (work_address : Z) (param : GaxDriverParam) : Z :=
  if work_address =? agbnullptr then
    let work_address := 0x3000000 in (* use IWRAM for default work address *)
    let gax_ptr := gax_wram_pointer param in
    if negb (gax_ptr =? agbnullptr)
       && (Z.land gax_ptr (wrap32 (Z.lnot 0xFFFFFF)) =? work_address)
    then
      if gax_ptr <? 0x3004000 then wrap32 (gax_ptr + 4) else work_address
    else work_address
  else work_address.

(** Lines 67-92: copy the template of the major version and patch it.
    [offset] is below 2^25 and the constants are positions inside a
    template, so the position sums are taken as they are. *)
Definition patch_driver_block (offset : nat) (work_address work_size : Z)
  (param : GaxDriverParam) : inplace unit :=
  if major_version (version param) =? 3 then
    memcpy offset gax3_driver_block ;;;
    WriteInt32L (offset + kGax2EstimateOffsetV3)
      (Z.lor (gax2_estimate param) 1) ;;;
    WriteInt32L (offset + kGax2NewOffsetV3) (Z.lor (gax2_new param) 1) ;;;
    WriteInt32L (offset + kGax2InitOffsetV3) (Z.lor (gax2_init param) 1) ;;;
    WriteInt32L (offset + kGaxIrqOffsetV3) (Z.lor (gax_irq param) 1) ;;;
    WriteInt32L (offset + kGaxPlayOffsetV3) (Z.lor (gax_play param) 1) ;;;
    WriteInt32L (offset + kMyWorkRamOffsetV3) work_address ;;;
    let sfx_offset :=
      if minor_version (version param) >=? 5 then 0x30 else 0x2c in
    WriteInt8 (offset + kGax2ParamFxImmOffsetV3) sfx_offset
  else
    memcpy offset gax2_driver_block ;;;
    WriteInt32L (offset + kGax2NewOffsetV2) (Z.lor (gax2_new param) 1) ;;;
    WriteInt32L (offset + kGax2InitOffsetV2) (Z.lor (gax2_init param) 1) ;;;
    WriteInt32L (offset + kGaxIrqOffsetV2) (Z.lor (gax_irq param) 1) ;;;
    WriteInt32L (offset + kGaxPlayOffsetV2) (Z.lor (gax_play param) 1) ;;;
    WriteInt32L (offset + kMyWorkRamOffsetV2) work_address ;;;
    WriteInt32L (offset + kMyWorkRamSizeOffsetV2) work_size.

(** [InstallGsfDriver] works on the image in place: the image is the
    buffer of [inplace]. *)
Definition InstallGsfDriver (address work_address work_size : Z)
  (param : GaxDriverParam) : inplace unit :=
  if negb (is_romptr address)
  then throw (invalid_argument "The gsf driver address is not valid.")
  else if negb (GaxDriverParam_ok param)
  then throw (invalid_argument
                ("Identification of GAX Sound Engine is incomplete."
                 ++ endl ++ endl ++ WriteAsTable param))
  else
    let offset := Z.to_nat (to_offset address) in
    rom_size <~ buffer_size ;;
    if (rom_size <? offset + gsf_driver_size (version param))%nat
    then throw (out_of_range
                  "The address of gsf driver block is out of range.")
    else
      let work_address := resolve_work_address work_address param in
      patch_driver_block offset work_address work_size param ;;;
      WriteInt32L 0 (make_arm_b 0x8000000 address).

(** [NewMinigsfData] fills a local array of [kMinigsfParamSize] zero bytes
    and returns it as a string. *)
Definition NewMinigsfData (param : GaxMinigsfDriverParam)
  : outcome (list byte) :=
  if negb (minigsf_ok param)
  then Thrown (invalid_argument
                 ("The parameters for creating minigsfs are not sufficient."
                  ++ endl ++ endl ++ MinigsfWriteAsTable param))
  else
    let fill : inplace unit :=
      WriteInt32L kMinigsfParamMyMusicOffset (address (song param)) ;;;
      WriteInt32L kMinigsfParamMyFxOffset
        (match fx param with Some e => address e | None => 0 end) ;;;
      WriteInt16L kMinigsfParamMyFxIdOffset (fxid param) ;;;
      WriteInt16L kMinigsfParamMyFlagsOffset (flags param) ;;;
      WriteInt16L kMinigsfParamMyMixingRateOffset (mixing_rate param) ;;;
      WriteInt16L kMinigsfParamMyVolumeOffset (volume param) in
    match fill (repeat x00 kMinigsfParamSize) with
    | (data, Returned _) => Returned (firstn kMinigsfParamSize data)
    | (_, Thrown e) => Thrown e
    | (_, OutOfBounds) => OutOfBounds
    end.

(** The patched positions lie inside their template, past its first word,
    and do not overlap: what the supplied templates have to satisfy for
    the patches to land where [InstallGsfDriver] means them to. *)
Definition slots_V3 : list (nat * nat) :=
  [(kGax2EstimateOffsetV3, 4); (kGax2NewOffsetV3, 4); (kGax2InitOffsetV3, 4);
   (kGaxIrqOffsetV3, 4); (kGaxPlayOffsetV3, 4); (kMyWorkRamOffsetV3, 4);
   (kGax2ParamFxImmOffsetV3, 1)]%nat.

Definition slots_V2 : list (nat * nat) :=
  [(kGax2NewOffsetV2, 4); (kGax2InitOffsetV2, 4); (kGaxIrqOffsetV2, 4);
   (kGaxPlayOffsetV2, 4); (kMyWorkRamOffsetV2, 4);
   (kMyWorkRamSizeOffsetV2, 4)]%nat.

Definition slot_inside (size : nat) (s : nat * nat) : bool :=
  ((4 <=? fst s) && (fst s + snd s <=? size))%nat.

Definition slots_apart (s t : nat * nat) : bool :=
  ((fst s + snd s <=? fst t) || (fst t + snd t <=? fst s))%nat.

Fixpoint pairwise_apart (l : list (nat * nat)) : bool :=
  match l with
  | [] => true
  | s :: l' => forallb (slots_apart s) l' && pairwise_apart l'
  end.

Definition wf_slots (size : nat) (l : list (nat * nat)) : bool :=
  forallb (slot_inside size) l && pairwise_apart l.

Definition wf_blocks : bool :=
  wf_slots (length gax3_driver_block) slots_V3
  && wf_slots (length gax2_driver_block) slots_V2.

(** The values [InstallGsfDriver] patches into the template it has copied,
    as (position inside the template, bytes), in program order. *)
Definition patches_V3 (work_address : Z) (param : GaxDriverParam)
  : list (nat * list byte) :=
  [(kGax2EstimateOffsetV3, le_split 4 (Z.lor (gax2_estimate param) 1));
   (kGax2NewOffsetV3, le_split 4 (Z.lor (gax2_new param) 1));
   (kGax2InitOffsetV3, le_split 4 (Z.lor (gax2_init param) 1));
   (kGaxIrqOffsetV3, le_split 4 (Z.lor (gax_irq param) 1));
   (kGaxPlayOffsetV3, le_split 4 (Z.lor (gax_play param) 1));
   (kMyWorkRamOffsetV3, le_split 4 work_address);
   (kGax2ParamFxImmOffsetV3,
    le_split 1 (if minor_version (version param) >=? 5 then 0x30 else 0x2c))].

Definition patches_V2 (work_address work_size : Z) (param : GaxDriverParam)
  : list (nat * list byte) :=
  [(kGax2NewOffsetV2, le_split 4 (Z.lor (gax2_new param) 1));
   (kGax2InitOffsetV2, le_split 4 (Z.lor (gax2_init param) 1));
   (kGaxIrqOffsetV2, le_split 4 (Z.lor (gax_irq param) 1));
   (kGaxPlayOffsetV2, le_split 4 (Z.lor (gax_play param) 1));
   (kMyWorkRamOffsetV2, le_split 4 work_address);
   (kMyWorkRamSizeOffsetV2, le_split 4 work_size)].

Definition driver_block (v : GaxVersion) : list byte :=
  if major_version v =? 3 then gax3_driver_block else gax2_driver_block.

Definition patches (work_address work_size : Z) (param : GaxDriverParam)
  : list (nat * list byte) :=
  if major_version (version param) =? 3
  then patches_V3 work_address param
  else patches_V2 work_address work_size param.

Definition slots (v : GaxVersion) : list (nat * nat) :=
  if major_version v =? 3 then slots_V3 else slots_V2.

(** Every store of a successful [InstallGsfDriver], in program order: the
    template, its patches, the entry vector. *)
Definition driver_writes (address work_address work_size : Z)
  (param : GaxDriverParam) : list (nat * list byte) :=
  let offset := Z.to_nat (to_offset address) in
  (offset, driver_block (version param))
  :: map (fun w => ((offset + fst w)%nat, snd w))
         (patches (resolve_work_address work_address param) work_size param)
  ++ [(0%nat, le_split 4 (make_arm_b 0x8000000 address))].

(** The patterns of one entry point all have the same length. *)
Definition pattern_length (e : entry_point) : nat :=
  match e with
  | Gax2Estimate => 20
  | Gax2New => 12
  | Gax2Init => 20
  | GaxIrq => 32
  | GaxPlay => 14
  end.

(* ===================================================================== *)
(** ** Facts about the [std::string_view] operations *)
(* ===================================================================== *)

Lemma starts_with_app (pat post : list byte) :
  starts_with pat (pat ++ post) = true.
Proof.
  induction pat as [|p pat IH]; cbn; [reflexivity|].
  rewrite (Byte.byte_dec_lb eq_refl). exact IH.
Qed.

Lemma starts_with_inv (pat s : list byte) :
  starts_with pat s = true -> exists post, s = pat ++ post.
Proof.
  revert s. induction pat as [|p pat IH]; intros s H.
  - exists s. reflexivity.
  - destruct s as [|c s]; cbn in H; [discriminate|].
    apply andb_prop in H. destruct H as [Hc Hs].
    apply Byte.byte_dec_bl in Hc. subst c.
    destruct (IH _ Hs) as [post ->]. exists post. reflexivity.
Qed.

Lemma occurs_at_iff (s pat : list byte) (i : nat) :
  occurs_at s pat i <->
  (i <= length s)%nat /\ starts_with pat (skipn i s) = true.
Proof.
  split.
  - intros (pre & post & -> & <-). split.
    + rewrite length_app. lia.
    + rewrite skipn_app, Nat.sub_diag, skipn_all. cbn.
      apply starts_with_app.
  - intros [Hi H]. apply starts_with_inv in H. destruct H as [post Hpost].
    exists (firstn i s), post. split.
    + rewrite <- Hpost. symmetry. apply firstn_skipn.
    + apply firstn_length_le. exact Hi.
Qed.

Lemma find_from_Some (pat s : list byte) (i k : nat) :
  find_from pat s i = Some k ->
  exists j, k = (i + j)%nat /\ (j <= length s)%nat /\
            starts_with pat (skipn j s) = true /\
            forall j', (j' < j)%nat -> starts_with pat (skipn j' s) = false.
Proof.
  revert i. induction s as [|c s IH]; intros i H.
  - cbn [find_from] in H. destruct (starts_with pat []) eqn:E; [|discriminate].
    injection H as <-. exists 0%nat. cbn [skipn length].
    repeat split; [lia | lia | exact E | intros; lia].
  - cbn [find_from] in H. destruct (starts_with pat (c :: s)) eqn:E.
    + injection H as <-. exists 0%nat. cbn [skipn].
      repeat split; [lia | lia | exact E | intros; lia].
    + apply IH in H. destruct H as (j & -> & Hj & Hm & Hlt).
      exists (S j). cbn [skipn length].
      repeat split; [lia | lia | exact Hm |].
      intros [|j'] Hj'; cbn [skipn]; [exact E | apply Hlt; lia].
Qed.

Lemma find_from_None (pat s : list byte) (i : nat) :
  find_from pat s i = None ->
  forall j, (j <= length s)%nat -> starts_with pat (skipn j s) = false.
Proof.
  revert i. induction s as [|c s IH]; intros i H j Hj.
  - cbn [find_from] in H. destruct (starts_with pat []) eqn:E; [discriminate|].
    cbn [length] in Hj. replace j with 0%nat by lia. exact E.
  - cbn [find_from] in H. destruct (starts_with pat (c :: s)) eqn:E;
      [discriminate|].
    destruct j as [|j]; cbn [skipn]; [exact E|].
    apply (IH _ H). cbn [length] in Hj. lia.
Qed.

Lemma sv_find_Some (s pat : list byte) (pos i : nat) :
  sv_find s pat pos = Some i -> first_occurrence s pat pos i.
Proof.
  unfold sv_find. destruct (Nat.leb_spec pos (length s)) as [Hpos|]; [|discriminate].
  intros H. apply find_from_Some in H.
  destruct H as (j & -> & Hj & Hm & Hlt).
  rewrite length_skipn in Hj. rewrite skipn_skipn in Hm.
  repeat split.
  - lia.
  - apply occurs_at_iff. split; [lia|].
    replace (pos + j)%nat with (j + pos)%nat by lia. exact Hm.
  - intros j' Hj' Hocc. apply occurs_at_iff in Hocc. destruct Hocc as [_ Hocc].
    specialize (Hlt (j' - pos)%nat ltac:(lia)).
    rewrite skipn_skipn in Hlt.
    replace (j' - pos + pos)%nat with j' in Hlt by lia. congruence.
Qed.

Lemma sv_find_None (s pat : list byte) (pos : nat) :
  sv_find s pat pos = None ->
  forall j, (pos <= j)%nat -> ~ occurs_at s pat j.
Proof.
  unfold sv_find. intros H j Hj Hocc.
  apply occurs_at_iff in Hocc. destruct Hocc as [Hlen Hocc].
  destruct (Nat.leb_spec pos (length s)) as [Hpos|Hpos]; [|lia].
  pose proof (find_from_None _ _ _ H (j - pos)%nat) as Hn.
  rewrite length_skipn, skipn_skipn in Hn.
  replace (j - pos + pos)%nat with j in Hn by lia.
  rewrite Hn in Hocc by lia. discriminate.
Qed.

Lemma first_occurrence_unique (s pat : list byte) (pos i j : nat) :
  first_occurrence s pat pos i -> first_occurrence s pat pos j -> i = j.
Proof.
  intros (Hi & Oi & Li) (Hj & Oj & Lj).
  destruct (Nat.lt_trichotomy i j) as [H|[H|H]]; [|exact H|].
  - exfalso. apply (Lj i); [lia | exact Oi].
  - exfalso. apply (Li j); [lia | exact Oj].
Qed.

Lemma sv_find_complete (s pat : list byte) (pos i : nat) :
  first_occurrence s pat pos i -> sv_find s pat pos = Some i.
Proof.
  intros H. destruct (sv_find s pat pos) as [k|] eqn:E.
  - f_equal. eapply first_occurrence_unique; [|exact H].
    apply sv_find_Some. exact E.
  - exfalso. destruct H as (Hi & Oi & _).
    exact (sv_find_None _ _ _ E i Hi Oi).
Qed.

Lemma sv_find_bound (s pat : list byte) (pos i : nat) :
  sv_find s pat pos = Some i ->
  (pos <= i)%nat /\ (i + length pat <= length s)%nat.
Proof.
  intros H. apply sv_find_Some in H. destruct H as (Hi & (pre & post & -> & <-) & _).
  split; [exact Hi|]. rewrite !length_app. lia.
Qed.

(** What the loop of a finder computes. *)
Lemma find_patterns_Some (rom : list byte) (offset : nat)
  (patterns : list (list byte)) (i : nat) :
  find_patterns rom offset patterns = Some i ->
  exists k pat,
    nth_error patterns k = Some pat /\
    first_occurrence rom pat offset i /\
    forall k' pat', (k' < k)%nat -> nth_error patterns k' = Some pat' ->
                    forall j, (offset <= j)%nat -> ~ occurs_at rom pat' j.
Proof.
  induction patterns as [|p ps IH]; cbn [find_patterns]; [discriminate|].
  destruct (sv_find rom p offset) as [k|] eqn:E.
  - intros H. injection H as <-. exists 0%nat, p.
    split; [reflexivity|]. split; [apply sv_find_Some; exact E|].
    intros k' pat' Hk'. lia.
  - intros H. destruct (IH H) as (k & pat & Hn & Hf & Hb).
    exists (S k), pat. split; [exact Hn|]. split; [exact Hf|].
    intros [|k'] pat' Hk' Hn'; cbn [nth_error] in Hn'.
    + injection Hn' as <-. apply sv_find_None. exact E.
    + apply (Hb k'); [lia | exact Hn'].
Qed.

Lemma find_patterns_None (rom : list byte) (offset : nat)
  (patterns : list (list byte)) :
  find_patterns rom offset patterns = None ->
  forall pat, In pat patterns ->
              forall j, (offset <= j)%nat -> ~ occurs_at rom pat j.
Proof.
  induction patterns as [|p ps IH]; cbn [find_patterns]; [intros _ ? []|].
  destruct (sv_find rom p offset) as [k|] eqn:E; [discriminate|].
  intros H pat [<-|Hin].
  - apply sv_find_None. exact E.
  - apply IH; assumption.
Qed.

Lemma find_patterns_first (rom : list byte) (offset : nat)
  (patterns : list (list byte)) (k : nat) (pat : list byte) (i : nat) :
  nth_error patterns k = Some pat ->
  (forall k' pat', (k' < k)%nat -> nth_error patterns k' = Some pat' ->
                   forall j, (offset <= j)%nat -> ~ occurs_at rom pat' j) ->
  first_occurrence rom pat offset i ->
  find_patterns rom offset patterns = Some i.
Proof.
  revert k. induction patterns as [|p ps IH]; intros k Hn Hb Hf.
  - destruct k; discriminate.
  - cbn [find_patterns]. destruct k as [|k]; cbn [nth_error] in Hn.
    + injection Hn as ->. rewrite (sv_find_complete _ _ _ _ Hf). reflexivity.
    + destruct (sv_find rom p offset) as [i'|] eqn:E.
      * exfalso. apply sv_find_Some in E. destruct E as (Hi & Ho & _).
        exact (Hb 0%nat p ltac:(lia) eq_refl i' Hi Ho).
      * apply (IH k Hn); [|exact Hf].
        intros k' pat' Hk' Hn'. apply (Hb (S k')); [lia | exact Hn'].
Qed.

Lemma finder_of_find_entry (e : entry_point) :
  finder_of e = find_entry (patterns_of e).
Proof. destruct e; reflexivity. Qed.

(** C4. Every finder ([FindGax2Estimate], [FindGax2New], [FindGax2Init],
    [FindGaxIrq], [FindGaxPlay]) is a total function, so it raises nothing,
    and on any image and lower bound:
    - when the [k]-th pattern of its list has its first occurrence at or
      after the lower bound at position [i], and no earlier pattern of the
      list occurs at or after the lower bound, the finder returns [i]
      converted to a ROM address;
    - when no pattern of the list occurs at or after the lower bound, the
      finder returns the null address. *)
Theorem finders_first_match (e : entry_point) (rom : list byte) (offset : nat) :
  (forall k pat i,
      nth_error (patterns_of e) k = Some pat ->
      (forall k' pat', (k' < k)%nat ->
          nth_error (patterns_of e) k' = Some pat' ->
          forall j, (offset <= j)%nat -> ~ occurs_at rom pat' j) ->
      first_occurrence rom pat offset i ->
      finder_of e rom offset = to_romptr (wrap32 (Z.of_nat i)))
  /\
  ((forall pat, In pat (patterns_of e) ->
       forall j, (offset <= j)%nat -> ~ occurs_at rom pat j) ->
   finder_of e rom offset = agbnullptr).
Proof.
  rewrite finder_of_find_entry. unfold find_entry. split.
  - intros k pat i Hn Hb Hf.
    rewrite (find_patterns_first _ _ _ _ _ _ Hn Hb Hf). reflexivity.
  - intros Hnone.
    destruct (find_patterns rom offset (patterns_of e)) as [i|] eqn:E;
      [|reflexivity].
    exfalso. apply find_patterns_Some in E.
    destruct E as (k & pat & Hn & (Hi & Ho & _) & _).
    apply (Hnone pat (nth_error_In _ _ Hn) i Hi Ho).
Qed.

(* ===================================================================== *)
(** ** Facts about the version text *)
(* ===================================================================== *)

Lemma firstn_min_length {A : Type} (n : Z) (l : list A) :
  0 <= n ->
  firstn (Z.to_nat (Z.min n (Z.of_nat (length l)))) l = firstn (Z.to_nat n) l.
Proof.
  intros Hn. destruct (Z.le_gt_cases n (Z.of_nat (length l))) as [H|H].
  - rewrite Z.min_l by lia. reflexivity.
  - rewrite Z.min_r by lia. rewrite Nat2Z.id.
    rewrite firstn_all. symmetry. apply firstn_all2. lia.
Qed.

Lemma sv_substr_in_range (s : list byte) (pos : nat) (count : Z) :
  (pos <= length s)%nat -> 0 <= count ->
  sv_substr s pos count = Returned (firstn (Z.to_nat count) (skipn pos s)).
Proof.
  intros Hpos Hc. unfold sv_substr.
  destruct (Nat.leb_spec pos (length s)); [|lia].
  rewrite <- (length_skipn pos s). rewrite firstn_min_length by exact Hc.
  reflexivity.
Qed.

Lemma find_char_from_Some (c : byte) (s : list byte) (i k : nat) :
  find_char_from c s i = Some k ->
  (i <= k)%nat /\ (k - i < length s)%nat /\
  before_byte c s = firstn (k - i) s /\
  existsb (fun b => Byte.eqb b c) s = true.
Proof.
  revert i. induction s as [|b s IH]; intros i H; cbn in H; [discriminate|].
  cbn [before_byte existsb length]. destruct (Byte.eqb b c) eqn:E.
  - injection H as <-. rewrite Nat.sub_diag. cbn. repeat split; lia.
  - apply IH in H. destruct H as (Hi & Hk & Hb & He).
    replace (k - i)%nat with (S (k - S i)) by lia. cbn [firstn].
    rewrite Hb. cbn. repeat split; try lia. exact He.
Qed.

Lemma find_char_from_None (c : byte) (s : list byte) (i : nat) :
  find_char_from c s i = None ->
  before_byte c s = s /\ existsb (fun b => Byte.eqb b c) s = false.
Proof.
  revert i. induction s as [|b s IH]; intros i H; cbn in H; [split; reflexivity|].
  cbn [before_byte existsb]. destruct (Byte.eqb b c) eqn:E; [discriminate|].
  apply IH in H. destruct H as [-> ->]. split; reflexivity.
Qed.

Lemma before_byte_app (c : byte) (p s : list byte) :
  existsb (fun b => Byte.eqb b c) p = false ->
  before_byte c (p ++ s) = p ++ before_byte c s.
Proof.
  induction p as [|b p IH]; cbn; [reflexivity|].
  destruct (Byte.eqb b c); cbn; [discriminate|].
  intros H. rewrite (IH H). reflexivity.
Qed.

Lemma marker_length : length kVersionTextPrefixPattern = 17%nat.
Proof. reflexivity. Qed.

Lemma marker_no_null :
  existsb (fun b => Byte.eqb b x00) kVersionTextPrefixPattern = false.
Proof. reflexivity. Qed.

Lemma marker_no_copyright :
  existsb (fun b => Byte.eqb b xa9) kVersionTextPrefixPattern = false.
Proof. reflexivity. Qed.

(** The null-terminated text: either branch of the source is the window cut
    at its first null byte. *)
Lemma null_terminated (noise : list byte) :
  match sv_find_first_of noise x00 with
  | Some end_offset => sv_substr noise 0 (Z.of_nat end_offset)
  | None => Returned noise
  end = Returned (before_byte x00 noise).
Proof.
  unfold sv_find_first_of. destruct (find_char_from x00 noise 0) as [e|] eqn:E.
  - apply find_char_from_Some in E. destruct E as (_ & He & Hb & _).
    rewrite sv_substr_in_range by lia. rewrite Nat2Z.id. cbn [skipn].
    rewrite Hb. rewrite Nat.sub_0_r. reflexivity.
  - apply find_char_from_None in E. destruct E as [-> _]. reflexivity.
Qed.

(** The copyright trim on a text that begins with the marker. *)
Lemma copyright_trimmed (rest : list byte) :
  (length rest < 1000)%nat ->
  let full := kVersionTextPrefixPattern ++ rest in
  match sv_find_first_of full xa9 with
  | Some copyright_offset =>
      sv_substr full 0 (Z.max 0 (size_wrap (Z.of_nat copyright_offset - 1)))
  | None => Returned full
  end = Returned (trim_copyright full).
Proof.
  intros Hlen full. unfold sv_find_first_of, trim_copyright.
  destruct (find_char_from xa9 full 0) as [c|] eqn:E.
  - apply find_char_from_Some in E. destruct E as (_ & Hc & Hb & He).
    rewrite He, Hb. rewrite Nat.sub_0_r in *.
    assert (Hfull : (length full < 1017)%nat).
    { unfold full. rewrite length_app, marker_length. lia. }
    assert (H17 : (17 <= c)%nat).
    { pose proof Hb as Hl. unfold full in Hl at 1.
      rewrite before_byte_app in Hl by exact marker_no_copyright.
      apply (f_equal (@length byte)) in Hl.
      rewrite length_app, marker_length in Hl.
      rewrite firstn_length_le in Hl by lia. lia. }
    unfold size_wrap. rewrite Z.mod_small by lia. rewrite Z.max_r by lia.
    rewrite sv_substr_in_range by lia. cbn [skipn].
    replace (Z.to_nat (Z.of_nat c - 1)) with (c - 1)%nat by lia.
    destruct c as [|c]; [lia|].
    rewrite removelast_firstn by lia.
    replace (S c - 1)%nat with c by lia. reflexivity.
  - apply find_char_from_None in E. destruct E as [_ ->]. reflexivity.
Qed.

(** C9, as the code has it. [FindGaxVersionText] returns the empty string
    when the marker does not occur at or after the lower bound. Otherwise,
    with the marker first found at [start], it returns the text made of at
    most 128 bytes STARTING AT the marker (the marker included), cut at the
    first null byte, and, when a copyright-sign byte (0xA9) is in what
    remains, cut again at that byte together with the one byte before it. *)
Theorem FindGaxVersionText_from_marker (rom : list byte) (offset : nat) :
  ((forall j, (offset <= j)%nat ->
      ~ occurs_at rom kVersionTextPrefixPattern j) ->
   FindGaxVersionText rom offset = Returned [])
  /\
  (forall start,
      first_occurrence rom kVersionTextPrefixPattern offset start ->
      FindGaxVersionText rom offset
      = Returned (version_text_from_marker rom start)).
Proof.
  unfold FindGaxVersionText. split.
  - intros Hnone.
    destruct (sv_find rom kVersionTextPrefixPattern offset) as [i|] eqn:E;
      [|reflexivity].
    exfalso. apply sv_find_Some in E. destruct E as (Hi & Ho & _).
    exact (Hnone i Hi Ho).
  - intros start Hf. rewrite (sv_find_complete _ _ _ _ Hf).
    destruct Hf as (_ & (pre & post & Hrom & Hpre) & _).
    unfold version_text_from_marker.
    assert (Hskip : skipn start rom = kVersionTextPrefixPattern ++ post).
    { rewrite Hrom, <- Hpre, skipn_app, Nat.sub_diag, skipn_all.
      reflexivity. }
    rewrite sv_substr_in_range;
      [| rewrite Hrom, length_app; lia | lia].
    change (Z.to_nat 128) with 128%nat.
    cbn [bind]. rewrite null_terminated. cbn [bind].
    rewrite Hskip, firstn_app, marker_length.
    rewrite (firstn_all2 kVersionTextPrefixPattern)
      by (rewrite marker_length; lia).
    rewrite before_byte_app by exact marker_no_null.
    apply copyright_trimmed.
    assert (length (before_byte x00 (firstn (128 - 17) post)) <= 111)%nat;
      [|lia].
    generalize (firstn_le_length (128 - 17) post).
    generalize (firstn (128 - 17) post). intros l Hl.
    assert (length (before_byte x00 l) <= length l)%nat; [|lia].
    clear. induction l as [|b l IH]; cbn; [lia|].
    destruct (Byte.eqb b x00); cbn; lia.
Qed.

Lemma read_digits_no_digit (s : list byte) :
  match s with b :: _ => is_digit b = false | [] => True end ->
  read_digits s None = (None, s).
Proof.
  destruct s as [|b s]; cbn [read_digits]; [reflexivity|].
  intros ->. reflexivity.
Qed.

(** C8. [ParseVersionText] returns on every text (it never throws and never
    reads outside the text). It returns the unknown version when the text is
    too short to hold a byte after the marker; otherwise it looks at the
    byte [c] right after the marker and returns what [GaxVersion::Parse]
    reads one position further when [c] is 'v' or 'V', and at the position
    of [c] itself otherwise. When no digit stands at the position handed to
    it, [GaxVersion::Parse] gives the unknown version. The marker followed by
    "v3.05" parses to major 3, minor 5; the marker alone parses to the
    unknown version. *)
Theorem ParseVersionText_spec :
  (forall text, exists v, ParseVersionText text = Returned v)
  /\
  (forall text,
      (length text < length kVersionTextPrefixPattern + 1)%nat ->
      ParseVersionText text = Returned GaxVersion_unknown)
  /\
  (forall text c,
      nth_error text (length kVersionTextPrefixPattern) = Some c ->
      ParseVersionText text
      = Returned
          (GaxVersion_Parse text
             (length kVersionTextPrefixPattern
              + (if Byte.eqb c x76 || Byte.eqb c x56 then 1 else 0))%nat))
  /\
  (forall text offset,
      match skipn offset text with
      | b :: _ => is_digit b = false
      | [] => True
      end ->
      GaxVersion_Parse text offset = GaxVersion_unknown)
  /\
  ParseVersionText (kVersionTextPrefixPattern ++ list_byte_of_string "v3.05")
  = Returned {| major_version := 3; minor_version := 5 |}
  /\
  ParseVersionText kVersionTextPrefixPattern = Returned GaxVersion_unknown.
Proof.
  assert (Hget : forall text c,
             nth_error text (length kVersionTextPrefixPattern) = Some c ->
             ParseVersionText text
             = Returned
                 (GaxVersion_Parse text
                    (length kVersionTextPrefixPattern
                     + (if Byte.eqb c x76 || Byte.eqb c x56 then 1 else 0))%nat)).
  { intros text c Hc. unfold ParseVersionText.
    assert (Hlen : (length kVersionTextPrefixPattern < length text)%nat).
    { apply nth_error_Some. congruence. }
    destruct (Nat.ltb_spec (length text)
                (length kVersionTextPrefixPattern + 1)); [lia|].
    rewrite Hc. reflexivity. }
  split; [|split; [|split; [|split; [|split]]]].
  - intros text. unfold ParseVersionText.
    destruct (Nat.ltb_spec (length text)
                (length kVersionTextPrefixPattern + 1)) as [H|H].
    + eexists. reflexivity.
    + destruct (nth_error text (length kVersionTextPrefixPattern)) as [c|] eqn:E.
      * eexists. reflexivity.
      * apply nth_error_None in E. lia.
  - intros text H. unfold ParseVersionText.
    destruct (Nat.ltb_spec (length text)
                (length kVersionTextPrefixPattern + 1)); [reflexivity|lia].
  - exact Hget.
  - intros text offset H. unfold GaxVersion_Parse.
    rewrite (read_digits_no_digit _ H). reflexivity.
  - reflexivity.
  - reflexivity.
Qed.

(* ===================================================================== *)
(** ** Facts about the address space and the work-RAM probe *)
(* ===================================================================== *)

Lemma to_offset_range (addr : Z) : 0 <= to_offset addr < 0x2000000.
Proof.
  unfold to_offset. change 0x1FFFFFF with (Z.ones 25).
  rewrite Z.land_ones by lia. apply Z.mod_pos_bound. lia.
Qed.

Lemma to_offset_to_romptr (offset : Z) :
  0 <= offset < 0x2000000 -> to_offset (to_romptr offset) = offset.
Proof.
  intros H. unfold to_offset, to_romptr. change 0x1FFFFFF with (Z.ones 25).
  rewrite (Z.land_ones offset) by lia. rewrite (Z.mod_small offset) by lia.
  apply Z.bits_inj'. intros n Hn.
  rewrite Z.land_spec, Z.lor_spec, Z.testbit_ones_nonneg by lia.
  change 0x8000000 with (2 ^ 27). rewrite Z.pow2_bits_eqb by lia.
  destruct (Z.ltb_spec n 25) as [Hlt|Hge].
  - replace (27 =? n) with false by (symmetry; apply Z.eqb_neq; lia).
    cbn. apply andb_true_r.
  - rewrite andb_false_r. symmetry.
    destruct (Z.eq_dec offset 0) as [->|Hz]; [apply Z.testbit_0_l|].
    apply Z.bits_above_log2; [lia|].
    assert (Z.log2 offset < 25) by (apply Z.log2_lt_pow2; lia). lia.
Qed.

Lemma wrap32_small (z : Z) : 0 <= z < 2 ^ 32 -> wrap32 z = z.
Proof. intros H. unfold wrap32. apply Z.mod_small. exact H. Qed.

Lemma read_bytes_in_range (m : list byte) (i n : nat) :
  (i + n <= length m)%nat ->
  read_bytes m i n = Some (firstn n (skipn i m)).
Proof.
  intros H. unfold read_bytes.
  destruct (Nat.leb_spec (i + n) (length m)); [reflexivity|lia].
Qed.

Lemma ReadInt32L_in_range (m : list byte) (i : nat) :
  (i + 4 <= length m)%nat ->
  ReadInt32L m i = Returned (le_combine (firstn 4 (skipn i m))).
Proof.
  intros H. unfold ReadInt32L. rewrite read_bytes_in_range by exact H.
  reflexivity.
Qed.

(** The probe of the major-3 engines stays inside the image and returns a
    RAM pointer or the null address. *)
Lemma FindGaxWorkRamPointerV3_safe (rom : list byte) (gax_play : Z) :
  exists ptr,
    FindGaxWorkRamPointerV3 rom gax_play = Returned ptr /\
    (ptr = agbnullptr \/ is_ewramptr ptr = true \/ is_iwramptr ptr = true).
Proof.
  unfold FindGaxWorkRamPointerV3.
  destruct (gax_play =? agbnullptr); [eexists; split; [reflexivity|auto]|].
  pose proof (to_offset_range (wrap32 (gax_play + 0x124))) as Hr.
  set (offset := to_offset (wrap32 (gax_play + 0x124))) in *.
  rewrite wrap32_small by lia.
  destruct (Z.geb_spec (offset + 4) (Z.of_nat (length rom))) as [H|H];
    [eexists; split; [reflexivity|auto]|].
  rewrite ReadInt32L_in_range by lia. cbn [bind].
  set (ptr := le_combine _).
  destruct (is_ewramptr ptr) eqn:Ee; cbn [orb].
  - eexists; split; [reflexivity|auto].
  - destruct (is_iwramptr ptr) eqn:Ei; eexists; split; try reflexivity; auto.
Qed.

(** The probe of the other engines, when the image reaches far enough
    behind [gax_play]: it checks [0xf4] bytes, and reads up to [0x138]. *)
Lemma FindGaxWorkRamPointerV2_safe_when_long (rom : list byte) (gax_play : Z) :
  to_offset gax_play + 0x138 <= Z.of_nat (length rom) ->
  exists ptr,
    FindGaxWorkRamPointerV2 rom gax_play = Returned ptr /\
    (ptr = agbnullptr \/ is_ewramptr ptr = true \/ is_iwramptr ptr = true).
Proof.
  intros Hlong. unfold FindGaxWorkRamPointerV2.
  destruct (gax_play =? agbnullptr); [eexists; split; [reflexivity|auto]|].
  pose proof (to_offset_range gax_play) as Hr.
  set (o := to_offset gax_play) in *.
  rewrite (wrap32_small (o + 0xf4)) by lia.
  destruct (Z.geb_spec (o + 0xf4) (Z.of_nat (length rom))) as [H|H]; [lia|].
  rewrite (wrap32_small (o + 2)) by lia.
  unfold ReadInt8. rewrite read_bytes_in_range by lia. cbn [option_map access bind].
  set (rel := le_combine _).
  assert (Hoff : forall k, 0 <= k <= 0x134 ->
            exists p, ReadInt32L rom (Z.to_nat (wrap32 (o + k))) = Returned p).
  { intros k Hk. rewrite wrap32_small by lia.
    rewrite ReadInt32L_in_range by lia. eexists. reflexivity. }
  destruct (Hoff (if rel =? 0x30 then 0xc4 else if rel =? 0x4c then 0x134 else 0xf0))
    as [ptr Hptr].
  { destruct (rel =? 0x30); [lia|]. destruct (rel =? 0x4c); lia. }
  rewrite Hptr. cbn [bind].
  destruct (is_ewramptr ptr) eqn:Ee; cbn [orb].
  - eexists; split; [reflexivity|auto].
  - destruct (is_iwramptr ptr) eqn:Ei; eexists; split; try reflexivity; auto.
Qed.

(* ===================================================================== *)
(** ** Facts about [Inspect] *)
(* ===================================================================== *)

Lemma patterns_nonempty (e : entry_point) :
  Forall (fun pat => (0 < length pat)%nat) (patterns_of e).
Proof. destruct e; repeat constructor; cbn; lia. Qed.

Lemma find_patterns_bound (rom : list byte) (offset : nat)
  (patterns : list (list byte)) (i : nat) :
  Forall (fun pat => (0 < length pat)%nat) patterns ->
  find_patterns rom offset patterns = Some i ->
  (offset <= i < length rom)%nat.
Proof.
  intros Hne H. apply find_patterns_Some in H.
  destruct H as (k & pat & Hn & (Hi & (pre & post & -> & <-) & _) & _).
  apply nth_error_In in Hn. rewrite Forall_forall in Hne.
  specialize (Hne pat Hn). rewrite !length_app. lia.
Qed.

(** A finder started at [offset] on an image that fits the ROM window
    returns null or an address whose offset is at least [offset]. *)
Lemma finder_not_before (e : entry_point) (rom : list byte) (offset : nat) :
  Z.of_nat (length rom) <= 0x2000000 ->
  finder_of e rom offset = agbnullptr \/
  Z.of_nat offset <= to_offset (finder_of e rom offset).
Proof.
  intros Hrom. rewrite finder_of_find_entry. unfold find_entry.
  destruct (find_patterns rom offset (patterns_of e)) as [i|] eqn:E;
    [right | left; reflexivity].
  apply (find_patterns_bound _ _ _ _ (patterns_nonempty e)) in E.
  rewrite wrap32_small by lia. rewrite to_offset_to_romptr by lia. lia.
Qed.

(** A finder that found something on an image that fits the ROM window
    returns an address whose offset is the position found. *)
Lemma finder_found_offset (e : entry_point) (rom : list byte) (offset : nat) :
  Z.of_nat (length rom) <= 0x2000000 ->
  finder_of e rom offset <> agbnullptr ->
  exists i, find_patterns rom offset (patterns_of e) = Some i /\
            to_offset (finder_of e rom offset) = Z.of_nat i.
Proof.
  intros Hrom. rewrite finder_of_find_entry. unfold find_entry.
  destruct (find_patterns rom offset (patterns_of e)) as [i|] eqn:E;
    [|congruence].
  intros _. exists i. split; [reflexivity|].
  apply (find_patterns_bound _ _ _ _ (patterns_nonempty e)) in E.
  rewrite wrap32_small by lia. apply to_offset_to_romptr. lia.
Qed.

Lemma Inspect_fields (rom : list byte) (param : GaxDriverParam) :
  Inspect rom = Returned param ->
  let code_offset := Z.to_nat (to_offset (FindGax2Estimate rom 0)) in
  gax2_estimate param = FindGax2Estimate rom 0 /\
  gax2_new param = FindGax2New rom code_offset /\
  gax2_init param = FindGax2Init rom code_offset /\
  gax_irq param = FindGaxIrq rom code_offset /\
  gax_play param = FindGaxPlay rom code_offset.
Proof.
  unfold Inspect.
  destruct (FindGaxVersionText rom 0) as [text| |]; cbn [bind]; try discriminate.
  destruct (ParseVersionText text) as [v| |]; cbn [bind]; try discriminate.
  destruct (FindGaxWorkRamPointer _ _ _) as [w| |]; cbn [bind];
    try discriminate.
  intros H. injection H as <-. cbn. repeat split.
Qed.

(** C10. In every record that [Inspect] produces for an image that fits the
    ROM window (at most 0x2000000 bytes, the range of offsets that a ROM
    address can carry), when [gax2_estimate] is not null, each of
    [gax2_new], [gax2_init], [gax_irq] and [gax_play] is null or an address
    whose offset is at least the offset of [gax2_estimate]. *)
Theorem Inspect_entries_not_before_estimate
  (rom : list byte) (param : GaxDriverParam) :
  Z.of_nat (length rom) <= 0x2000000 ->
  Inspect rom = Returned param ->
  gax2_estimate param <> agbnullptr ->
  (gax2_new param = agbnullptr \/
   to_offset (gax2_estimate param) <= to_offset (gax2_new param)) /\
  (gax2_init param = agbnullptr \/
   to_offset (gax2_estimate param) <= to_offset (gax2_init param)) /\
  (gax_irq param = agbnullptr \/
   to_offset (gax2_estimate param) <= to_offset (gax_irq param)) /\
  (gax_play param = agbnullptr \/
   to_offset (gax2_estimate param) <= to_offset (gax_play param)).
Proof.
  intros Hrom Hins Hest. apply Inspect_fields in Hins.
  destruct Hins as (He & Hn & Hi & Hq & Hp).
  rewrite He in *. rewrite Hn, Hi, Hq, Hp.
  destruct (finder_found_offset Gax2Estimate rom 0 Hrom Hest) as (i & _ & Hoff).
  cbn [finder_of] in Hoff. rewrite Hoff, Nat2Z.id.
  pose proof (finder_not_before Gax2New rom i Hrom) as H1.
  pose proof (finder_not_before Gax2Init rom i Hrom) as H2.
  pose proof (finder_not_before GaxIrq rom i Hrom) as H3.
  pose proof (finder_not_before GaxPlay rom i Hrom) as H4.
  repeat split; assumption.
Qed.


(* ===================================================================== *)
(** ** Facts about stores into a buffer *)
(* ===================================================================== *)

Lemma length_splice (m : list byte) (i : nat) (bs : list byte) :
  (i + length bs <= length m)%nat -> length (splice m i bs) = length m.
Proof.
  intros H. unfold splice.
  rewrite !length_app, length_firstn, length_skipn. lia.
Qed.

Lemma nth_error_splice (m : list byte) (i : nat) (bs : list byte) (j : nat) :
  (i + length bs <= length m)%nat ->
  nth_error (splice m i bs) j
  = if (j <? i)%nat then nth_error m j
    else if (j <? i + length bs)%nat then nth_error bs (j - i)
         else nth_error m j.
Proof.
  intros H. unfold splice.
  rewrite nth_error_app, length_firstn, Nat.min_l by lia.
  destruct (Nat.ltb_spec j i) as [Hj|Hj].
  - rewrite nth_error_firstn. destruct (Nat.ltb_spec j i); [reflexivity|lia].
  - rewrite nth_error_app.
    destruct (Nat.ltb_spec (j - i) (length bs)) as [Hb|Hb];
      destruct (Nat.ltb_spec j (i + length bs)); try lia; [reflexivity|].
    rewrite nth_error_skipn. f_equal. lia.
Qed.

Lemma window_splice_same (m : list byte) (i : nat) (bs : list byte) :
  (i + length bs <= length m)%nat ->
  firstn (length bs) (skipn i (splice m i bs)) = bs.
Proof.
  intros H. unfold splice.
  rewrite skipn_app, length_firstn, Nat.min_l by lia.
  rewrite Nat.sub_diag. cbn [skipn].
  rewrite skipn_all2 by (rewrite length_firstn; lia). cbn [app].
  rewrite firstn_app, Nat.sub_diag, firstn_all. cbn [firstn].
  apply app_nil_r.
Qed.

Lemma window_splice_other (m : list byte) (i : nat) (bs : list byte)
  (j n : nat) :
  (i + length bs <= length m)%nat ->
  (j + n <= i \/ i + length bs <= j)%nat ->
  firstn n (skipn j (splice m i bs)) = firstn n (skipn j m).
Proof.
  intros H Hd. apply nth_error_ext. intros k.
  rewrite !nth_error_firstn. destruct (Nat.ltb_spec k n); [|reflexivity].
  rewrite !nth_error_skipn, nth_error_splice by exact H.
  destruct (Nat.ltb_spec (j + k) i); [reflexivity|].
  destruct (Nat.ltb_spec (j + k) (i + length bs)); [lia|reflexivity].
Qed.

Lemma length_splice_all (m : list byte) (ws : list (nat * list byte)) :
  in_range m ws -> length (splice_all m ws) = length m.
Proof.
  unfold in_range, splice_all. revert m.
  induction ws as [|w ws IH]; intros m H; [reflexivity|].
  inversion H as [|? ? Hw Hws]; subst. cbn [fold_left].
  rewrite IH; [apply length_splice; exact Hw|].
  rewrite length_splice by exact Hw. exact Hws.
Qed.

Lemma stores_splice_all (m : list byte) (ws : list (nat * list byte)) :
  in_range m ws -> stores ws m = (splice_all m ws, Returned tt).
Proof.
  unfold in_range, splice_all. revert m.
  induction ws as [|[i bs] ws IH]; intros m H; [reflexivity|].
  inversion H as [|? ? Hw Hws]; subst. cbn [fst snd] in Hw.
  cbn [stores fold_left fst snd]. unfold seq, store, write_bytes.
  destruct (Nat.leb_spec (i + length bs) (length m)); [|lia].
  apply IH. rewrite length_splice by exact Hw. exact Hws.
Qed.

(** Stores fail only by leaving the buffer: they throw nothing. *)
Lemma stores_no_throw (ws : list (nat * list byte)) (m : list byte)
  (e : exception) :
  snd (stores ws m) <> Thrown e.
Proof.
  revert m. induction ws as [|[i bs] ws IH]; intros m; [discriminate|].
  cbn [stores]. unfold seq, store.
  destruct (write_bytes m i bs); [apply IH|discriminate].
Qed.

Lemma splice_all_untouched (m : list byte) (ws : list (nat * list byte))
  (j : nat) :
  in_range m ws ->
  (forall w, In w ws -> (j < fst w \/ fst w + length (snd w) <= j)%nat) ->
  nth_error (splice_all m ws) j = nth_error m j.
Proof.
  unfold in_range, splice_all. revert m.
  induction ws as [|w ws IH]; intros m H Hout; [reflexivity|].
  inversion H as [|? ? Hw Hws]; subst. cbn [fold_left].
  rewrite IH.
  - rewrite nth_error_splice by exact Hw.
    specialize (Hout w (or_introl eq_refl)).
    destruct (Nat.ltb_spec j (fst w)); [reflexivity|].
    destruct (Nat.ltb_spec j (fst w + length (snd w))); [lia|reflexivity].
  - rewrite length_splice by exact Hw. exact Hws.
  - intros w' Hin. apply Hout. right. exact Hin.
Qed.

Lemma splice_all_window_kept (m : list byte) (ws : list (nat * list byte))
  (i n : nat) :
  in_range m ws ->
  (forall w, In w ws -> (i + n <= fst w \/ fst w + length (snd w) <= i)%nat) ->
  firstn n (skipn i (splice_all m ws)) = firstn n (skipn i m).
Proof.
  unfold in_range, splice_all. revert m.
  induction ws as [|w ws IH]; intros m H Hout; [reflexivity|].
  inversion H as [|? ? Hw Hws]; subst. cbn [fold_left].
  rewrite IH.
  - apply window_splice_other; [exact Hw|].
    specialize (Hout w (or_introl eq_refl)). lia.
  - rewrite length_splice by exact Hw. exact Hws.
  - intros w' Hin. apply Hout. right. exact Hin.
Qed.

(** A store that no later store overlaps is what the final buffer holds. *)
Lemma splice_all_last_writer (m : list byte)
  (ws1 ws2 : list (nat * list byte)) (i : nat) (bs : list byte) :
  in_range m (ws1 ++ (i, bs) :: ws2) ->
  (forall w, In w ws2 ->
             (i + length bs <= fst w \/ fst w + length (snd w) <= i)%nat) ->
  firstn (length bs) (skipn i (splice_all m (ws1 ++ (i, bs) :: ws2))) = bs.
Proof.
  intros H Hlater. unfold in_range in H. apply Forall_app in H.
  destruct H as [H1 H2]. inversion H2 as [|? ? Hw Hws]; subst.
  cbn [fst snd] in Hw.
  unfold splice_all. rewrite fold_left_app. cbn [fold_left fst snd].
  fold (splice_all m ws1).
  pose proof (length_splice_all m ws1 H1) as Hlen.
  set (m1 := splice_all m ws1) in *.
  fold (splice_all (splice m1 i bs) ws2).
  rewrite splice_all_window_kept.
  - apply window_splice_same. lia.
  - unfold in_range. rewrite length_splice by lia. rewrite Hlen. exact Hws.
  - exact Hlater.
Qed.

(* ===================================================================== *)
(** ** Facts about [InstallGsfDriver] *)
(* ===================================================================== *)

Lemma seq_ret_r (c : inplace unit) (m : list byte) :
  (c ;;; ret tt) m = c m.
Proof.
  unfold seq, ret. destruct (c m) as [m' [[]| |]]; reflexivity.
Qed.

Lemma seq_store_cong (i : nat) (bs : list byte) (c c' : inplace unit)
  (m : list byte) :
  (forall m', c m' = c' m') -> (store i bs ;;; c) m = (store i bs ;;; c') m.
Proof.
  intros H. unfold seq. destruct (store i bs m) as [m' [[]| |]];
    [apply H | reflexivity | reflexivity].
Qed.

Lemma stores_app (ws1 ws2 : list (nat * list byte)) (m : list byte) :
  stores (ws1 ++ ws2) m = (stores ws1 ;;; stores ws2) m.
Proof.
  revert m. induction ws1 as [|[i bs] ws1 IH]; intros m; [reflexivity|].
  cbn [app stores]. unfold seq at 1 2 3.
  destruct (store i bs m) as [m' [[]| |]]; [|reflexivity|reflexivity].
  rewrite IH. reflexivity.
Qed.

(** The body of [InstallGsfDriver] past its checks is a run of stores. *)
Lemma patch_driver_block_stores (offset : nat) (work_address work_size : Z)
  (param : GaxDriverParam) (rom : list byte) :
  patch_driver_block offset work_address work_size param rom
  = stores
      ((offset, driver_block (version param))
       :: map (fun w => ((offset + fst w)%nat, snd w))
              (patches work_address work_size param)) rom.
Proof.
  unfold patch_driver_block, driver_block, patches, patches_V3, patches_V2.
  unfold memcpy, WriteInt32L, WriteInt8.
  destruct (major_version (version param) =? 3);
    cbn [map stores fst snd];
    repeat (apply seq_store_cong; intros ?);
    symmetry; apply seq_ret_r.
Qed.

(** [InstallGsfDriver] once its first two checks have passed. *)
Lemma InstallGsfDriver_checked (rom : list byte)
  (address work_address work_size : Z) (param : GaxDriverParam) :
  is_romptr address = true ->
  GaxDriverParam_ok param = true ->
  InstallGsfDriver address work_address work_size param rom
  = if (length rom
        <? Z.to_nat (to_offset address) + gsf_driver_size (version param))%nat
    then (rom, Thrown (out_of_range
                         "The address of gsf driver block is out of range."))
    else (patch_driver_block (Z.to_nat (to_offset address))
            (resolve_work_address work_address param) work_size param ;;;
          WriteInt32L 0 (make_arm_b 0x8000000 address)) rom.
Proof.
  intros Hrom Hok. unfold InstallGsfDriver. rewrite Hrom, Hok. cbn [negb].
  unfold seq at 1, buffer_size.
  destruct (_ <? _)%nat; reflexivity.
Qed.

Lemma InstallGsfDriver_stores (rom : list byte)
  (address work_address work_size : Z) (param : GaxDriverParam) :
  is_romptr address = true ->
  GaxDriverParam_ok param = true ->
  (Z.to_nat (to_offset address) + gsf_driver_size (version param)
   <= length rom)%nat ->
  InstallGsfDriver address work_address work_size param rom
  = stores (driver_writes address work_address work_size param) rom.
Proof.
  intros Hrom Hok Hfit. unfold InstallGsfDriver. rewrite Hrom, Hok. cbn [negb].
  unfold seq at 1, buffer_size.
  destruct (Nat.ltb_spec (length rom)
              (Z.to_nat (to_offset address) + gsf_driver_size (version param)));
    [lia|].
  unfold driver_writes. rewrite app_comm_cons, stores_app.
  unfold seq. rewrite patch_driver_block_stores.
  match goal with |- match ?x with _ => _ end = _ => destruct x as [m' [[]| |]] end;
    try reflexivity.
  cbn [stores]. unfold WriteInt32L. symmetry. apply seq_ret_r.
Qed.

Lemma slots_of_patches (work_address work_size : Z) (param : GaxDriverParam) :
  map (fun w => (fst w, length (snd w))) (patches work_address work_size param)
  = slots (version param).
Proof.
  unfold patches, slots. destruct (major_version (version param) =? 3);
    reflexivity.
Qed.

Lemma wf_blocks_slots (v : GaxVersion) :
  wf_blocks = true -> wf_slots (length (driver_block v)) (slots v) = true.
Proof.
  unfold wf_blocks, driver_block, slots. intros H. apply andb_prop in H.
  destruct H as [H3 H2]. destruct (major_version v =? 3); assumption.
Qed.

Lemma gsf_driver_size_block (v : GaxVersion) :
  gsf_driver_size v = length (driver_block v).
Proof.
  unfold gsf_driver_size, driver_block. destruct (major_version v =? 3);
    reflexivity.
Qed.

Lemma wf_slots_inside (size : nat) (l : list (nat * nat)) (s : nat * nat) :
  wf_slots size l = true -> In s l ->
  (4 <= fst s /\ fst s + snd s <= size)%nat.
Proof.
  unfold wf_slots. intros H Hin. apply andb_prop in H. destruct H as [H _].
  rewrite forallb_forall in H. specialize (H s Hin). unfold slot_inside in H.
  apply andb_prop in H. destruct H as [H1 H2].
  apply Nat.leb_le in H1, H2. lia.
Qed.

Lemma pairwise_apart_later (l1 l2 : list (nat * nat)) (s t : nat * nat) :
  pairwise_apart (l1 ++ s :: l2) = true -> In t l2 ->
  (fst s + snd s <= fst t \/ fst t + snd t <= fst s)%nat.
Proof.
  induction l1 as [|a l1 IH]; cbn [app pairwise_apart]; intros H Hin;
    apply andb_prop in H; destruct H as [Ha Hl].
  - rewrite forallb_forall in Ha. specialize (Ha t Hin).
    unfold slots_apart in Ha. apply orb_prop in Ha.
    destruct Ha as [Ha|Ha]; apply Nat.leb_le in Ha; lia.
  - apply IH; assumption.
Qed.

Section Installed.

Variables (rom : list byte) (address work_address work_size : Z).
Variable param : GaxDriverParam.

Let offset : nat := Z.to_nat (to_offset address).
Let installed : list byte :=
  splice_all rom (driver_writes address work_address work_size param).

Hypothesis Hwf : wf_blocks = true.
Hypothesis Hfit :
  (offset + gsf_driver_size (version param) <= length rom)%nat.

Lemma driver_writes_in_range :
  in_range rom (driver_writes address work_address work_size param).
Proof using Hwf Hfit.
  pose proof (wf_blocks_slots (version param) Hwf) as Hs.
  pose proof Hfit as Hfit'. rewrite gsf_driver_size_block in Hfit'.
  unfold in_range, driver_writes. fold offset.
  constructor; [exact Hfit'|]. apply Forall_app. split.
  - rewrite Forall_map. apply Forall_forall. intros w Hin. cbn [fst snd].
    assert (Hslot : In (fst w, length (snd w)) (slots (version param))).
    { rewrite <- (slots_of_patches
                    (resolve_work_address work_address param) work_size).
      apply (in_map (fun w => (fst w, length (snd w)))). exact Hin. }
    pose proof (wf_slots_inside _ _ _ Hs Hslot) as Hi. cbn [fst snd] in Hi.
    lia.
  - constructor; [|constructor]. cbn [fst snd]. rewrite length_le_split.
    assert (Hne : exists s, In s (slots (version param))).
    { unfold slots, slots_V3, slots_V2.
      destruct (major_version (version param) =? 3);
        eexists; left; reflexivity. }
    destruct Hne as [s Hin].
    pose proof (wf_slots_inside _ _ _ Hs Hin). lia.
Qed.

Lemma installed_length : length installed = length rom.
Proof using Hwf Hfit. apply length_splice_all. exact driver_writes_in_range. Qed.

(** Each patch is what the installed image holds at its position. *)
Lemma installed_patch (k : nat) (bs : list byte) :
  In (k, bs)
     (patches (resolve_work_address work_address param) work_size param) ->
  read_bytes installed (offset + k) (length bs) = Some bs.
Proof using Hwf Hfit.
  intros Hin.
  pose proof (wf_blocks_slots (version param) Hwf) as Hs.
  pose proof driver_writes_in_range as Hr.
  assert (Hslot : In (k, length bs) (slots (version param))).
  { rewrite <- (slots_of_patches
                  (resolve_work_address work_address param) work_size).
    apply (in_map (fun w => (fst w, length (snd w))) _ _ Hin). }
  pose proof (wf_slots_inside _ _ _ Hs Hslot) as Hk. cbn [fst snd] in Hk.
  pose proof Hfit as Hfit'. rewrite gsf_driver_size_block in Hfit'.
  rewrite read_bytes_in_range by (rewrite installed_length; lia).
  f_equal. unfold installed.
  apply in_split in Hin. destruct Hin as (p1 & p2 & Hp).
  assert (Hdw : driver_writes address work_address work_size param
                = ((offset, driver_block (version param))
                   :: map (fun w => ((offset + fst w)%nat, snd w)) p1)
                  ++ ((offset + k)%nat, bs)
                  :: (map (fun w => ((offset + fst w)%nat, snd w)) p2
                      ++ [(0%nat, le_split 4 (make_arm_b 0x8000000 address))])).
  { unfold driver_writes. fold offset. rewrite Hp, map_app.
    cbn [map fst snd]. rewrite <- app_assoc. reflexivity. }
  rewrite Hdw in Hr |- *.
  apply splice_all_last_writer; [exact Hr|].
  intros w Hw. apply in_app_or in Hw. destruct Hw as [Hw|[<-|[]]].
  - apply in_map_iff in Hw. destruct Hw as (w' & <- & Hw'). cbn [fst snd].
    assert (Hap : pairwise_apart (slots (version param)) = true).
    { unfold wf_slots in Hs. apply andb_prop in Hs. apply Hs. }
    rewrite <- (slots_of_patches
                  (resolve_work_address work_address param) work_size) in Hap.
    rewrite Hp, map_app in Hap. cbn [map fst snd] in Hap.
    pose proof (pairwise_apart_later _ _ _ (fst w', length (snd w')) Hap
                  (in_map (fun w => (fst w, length (snd w))) _ _ Hw')) as Hd.
    cbn [fst snd] in Hd. lia.
  - cbn [fst snd]. rewrite length_le_split. lia.
Qed.

(** Outside the template block and the entry vector nothing changes. *)
Lemma installed_frame (j : nat) :
  (4 <= j)%nat ->
  (j < offset \/ offset + gsf_driver_size (version param) <= j)%nat ->
  nth_error installed j = nth_error rom j.
Proof using Hwf Hfit.
  intros H4 Hout.
  pose proof (wf_blocks_slots (version param) Hwf) as Hs.
  rewrite gsf_driver_size_block in Hout.
  apply splice_all_untouched; [exact driver_writes_in_range|].
  unfold driver_writes. fold offset. intros w [<-|Hw]; cbn [fst snd]; [lia|].
  apply in_app_or in Hw. destruct Hw as [Hw|[<-|[]]].
  - apply in_map_iff in Hw. destruct Hw as (w' & <- & Hw'). cbn [fst snd].
    assert (Hslot : In (fst w', length (snd w')) (slots (version param))).
    { rewrite <- (slots_of_patches
                    (resolve_work_address work_address param) work_size).
      apply (in_map (fun w => (fst w, length (snd w)))). exact Hw'. }
    pose proof (wf_slots_inside _ _ _ Hs Hslot) as Hi. cbn [fst snd] in Hi.
    lia.
  - cbn [fst snd]. rewrite length_le_split. lia.
Qed.

(** The entry vector is the last store. *)
Lemma installed_entry_vector :
  firstn 4 installed = le_split 4 (make_arm_b 0x8000000 address).
Proof using Hwf Hfit.
  pose proof driver_writes_in_range as Hr. unfold installed.
  assert (Hdw : driver_writes address work_address work_size param
                = ((offset, driver_block (version param))
                   :: map (fun w => ((offset + fst w)%nat, snd w))
                        (patches (resolve_work_address work_address param)
                           work_size param))
                  ++ (0%nat, le_split 4 (make_arm_b 0x8000000 address)) :: [])
    by reflexivity.
  rewrite Hdw in Hr |- *.
  pose proof (splice_all_last_writer rom _ [] 0 _ Hr) as H.
  cbn [skipn] in H. rewrite length_le_split in H. apply H. intros w [].
Qed.

End Installed.

Ltac in_list := cbn [In]; repeat first [left; reflexivity | right].

Lemma InstallGsfDriver_returns (rom : list byte)
  (address work_address work_size : Z) (param : GaxDriverParam) :
  wf_blocks = true ->
  is_romptr address = true ->
  GaxDriverParam_ok param = true ->
  (Z.to_nat (to_offset address) + gsf_driver_size (version param)
   <= length rom)%nat ->
  InstallGsfDriver address work_address work_size param rom
  = (splice_all rom (driver_writes address work_address work_size param),
     Returned tt).
Proof.
  intros Hwf Hrom Hok Hfit.
  rewrite InstallGsfDriver_stores by assumption.
  apply stores_splice_all. apply driver_writes_in_range; assumption.
Qed.

(** A call that returns has passed the three checks. *)
Lemma InstallGsfDriver_success_inv (rom : list byte)
  (address work_address work_size : Z) (param : GaxDriverParam) :
  snd (InstallGsfDriver address work_address work_size param rom)
  = Returned tt ->
  is_romptr address = true /\
  GaxDriverParam_ok param = true /\
  (Z.to_nat (to_offset address) + gsf_driver_size (version param)
   <= length rom)%nat.
Proof.
  unfold InstallGsfDriver.
  destruct (is_romptr address); cbn [negb]; [|discriminate].
  destruct (GaxDriverParam_ok param); cbn [negb]; [|discriminate].
  unfold seq at 1, buffer_size.
  destruct (Nat.ltb_spec (length rom)
              (Z.to_nat (to_offset address) + gsf_driver_size (version param)));
    [discriminate|].
  intros _. repeat split. lia.
Qed.

Lemma InstallGsfDriver_success (rom : list byte)
  (address work_address work_size : Z) (param : GaxDriverParam) :
  wf_blocks = true ->
  snd (InstallGsfDriver address work_address work_size param rom)
  = Returned tt ->
  (Z.to_nat (to_offset address) + gsf_driver_size (version param)
   <= length rom)%nat /\
  fst (InstallGsfDriver address work_address work_size param rom)
  = splice_all rom (driver_writes address work_address work_size param).
Proof.
  intros Hwf Hs. apply InstallGsfDriver_success_inv in Hs.
  destruct Hs as (Hrom & Hok & Hfit). split; [exact Hfit|].
  rewrite InstallGsfDriver_returns by assumption. reflexivity.
Qed.

Lemma le_combine_le_split_4 (v : Z) : le_combine (le_split 4 v) = wrap32 v.
Proof. rewrite le_combine_split. reflexivity. Qed.

(** A 4-byte patch read back as a word. *)
Lemma installed_word (rom : list byte) (address work_address work_size : Z)
  (param : GaxDriverParam) (k : nat) (v : Z) :
  wf_blocks = true ->
  (Z.to_nat (to_offset address) + gsf_driver_size (version param)
   <= length rom)%nat ->
  In (k, le_split 4 v)
     (patches (resolve_work_address work_address param) work_size param) ->
  ReadInt32L
    (splice_all rom (driver_writes address work_address work_size param))
    (Z.to_nat (to_offset address) + k)
  = Returned (wrap32 v).
Proof.
  intros Hwf Hfit Hin.
  pose proof (installed_patch rom address work_address work_size param
                Hwf Hfit k _ Hin) as H.
  rewrite length_le_split in H. unfold ReadInt32L. rewrite H.
  cbn [option_map access]. rewrite le_combine_le_split_4. reflexivity.
Qed.

Lemma low_bit_set (x : Z) : Z.testbit (wrap32 (Z.lor x 1)) 0 = true.
Proof.
  unfold wrap32. rewrite Z.mod_pow2_bits_low by lia.
  rewrite Z.lor_spec. apply orb_true_r.
Qed.

(** C1, as the code has it. After a successful [InstallGsfDriver] with
    templates whose patch positions are well formed, the image holds at the
    fixed positions of the copied template:
    - under the major-3 template, all five entry-point addresses
      ([gax2_estimate], [gax2_new], [gax2_init], [gax_irq], [gax_play]);
    - under the other template, the four addresses [gax2_new], [gax2_init],
      [gax_irq] and [gax_play] ([gax2_estimate] is not patched in);
    each one ORed with 1, so its low bit is set whatever the input was. *)
Theorem InstallGsfDriver_entry_points (rom : list byte)
  (address work_address work_size : Z) (param : GaxDriverParam) :
  wf_blocks = true ->
  snd (InstallGsfDriver address work_address work_size param rom)
  = Returned tt ->
  let rom' := fst (InstallGsfDriver address work_address work_size param rom) in
  let offset := Z.to_nat (to_offset address) in
  let patched (k : nat) (x : Z) :=
    ReadInt32L rom' (offset + k) = Returned (wrap32 (Z.lor x 1)) /\
    Z.testbit (wrap32 (Z.lor x 1)) 0 = true in
  if major_version (version param) =? 3
  then patched kGax2EstimateOffsetV3 (gax2_estimate param) /\
       patched kGax2NewOffsetV3 (gax2_new param) /\
       patched kGax2InitOffsetV3 (gax2_init param) /\
       patched kGaxIrqOffsetV3 (gax_irq param) /\
       patched kGaxPlayOffsetV3 (gax_play param)
  else patched kGax2NewOffsetV2 (gax2_new param) /\
       patched kGax2InitOffsetV2 (gax2_init param) /\
       patched kGaxIrqOffsetV2 (gax_irq param) /\
       patched kGaxPlayOffsetV2 (gax_play param).
Proof.
  intros Hwf Hs rom' offset patched.
  destruct (InstallGsfDriver_success _ _ _ _ _ Hwf Hs) as [Hfit Hrom'].
  assert (Hp : forall k x,
             In (k, le_split 4 (Z.lor x 1))
                (patches (resolve_work_address work_address param)
                   work_size param) ->
             patched k x).
  { intros k x Hin. split; [|apply low_bit_set].
    unfold rom'. rewrite Hrom'. apply installed_word; assumption. }
  unfold patches, patches_V3, patches_V2 in Hp.
  destruct (major_version (version param) =? 3);
    repeat split;
    first [apply low_bit_set | apply Hp; in_list].
Qed.
(** X17. Under the non-major-3 template [InstallGsfDriver] does the same
    whatever [gax2_estimate] the (complete) record holds, for any templates:
    the installed image does not depend on it. *)
Lemma InstallGsfDriver_V2_ignores_estimate (rom : list byte)
  (address work_address work_size : Z) (param : GaxDriverParam) (a : Z) :
  (major_version (version param) =? 3) = false ->
  GaxDriverParam_ok param = true ->
  GaxDriverParam_ok (set_gax2_estimate param a) = true ->
  InstallGsfDriver address work_address work_size
    (set_gax2_estimate param a) rom
  = InstallGsfDriver address work_address work_size param rom.
Proof.
  intros Hmajor Hok Hok'.
  unfold InstallGsfDriver, patch_driver_block, resolve_work_address,
    gsf_driver_size.
  rewrite Hok, Hok'.
  cbn [version gax_wram_pointer gax2_new gax2_init gax_irq gax_play
       set_gax2_estimate].
  rewrite Hmajor. reflexivity.
Qed.

(** C2. [InstallGsfDriver] throws invalid-argument when the target address
    is not a ROM address or when the record is not complete (then with the
    record's table in the message); with both checks passed, it throws
    out-of-range when the offset of the target address plus the size of the
    version's template exceeds the image length; and whenever it throws, the
    image is byte for byte what it was: nothing is copied before the three
    checks have passed. *)
Theorem InstallGsfDriver_failures (rom : list byte)
  (address work_address work_size : Z) (param : GaxDriverParam) :
  let run := InstallGsfDriver address work_address work_size param rom in
  (is_romptr address = false \/ GaxDriverParam_ok param = false ->
   exists what, snd run = Thrown (invalid_argument what))
  /\
  (is_romptr address = true -> GaxDriverParam_ok param = false ->
   snd run
   = Thrown (invalid_argument
               ("Identification of GAX Sound Engine is incomplete."
                ++ endl ++ endl ++ WriteAsTable param)))
  /\
  (is_romptr address = true -> GaxDriverParam_ok param = true ->
   (length rom
    < Z.to_nat (to_offset address) + gsf_driver_size (version param))%nat ->
   snd run
   = Thrown (out_of_range "The address of gsf driver block is out of range."))
  /\
  (forall e, snd run = Thrown e -> fst run = rom).
Proof.
  intros run. subst run.
  destruct (is_romptr address) eqn:Hrom.
  2:{ unfold InstallGsfDriver. rewrite Hrom. cbn [negb].
      split; [intros _; eexists; reflexivity|].
      split; [discriminate|]. split; [discriminate|].
      intros; reflexivity. }
  destruct (GaxDriverParam_ok param) eqn:Hok.
  2:{ unfold InstallGsfDriver. rewrite Hrom, Hok. cbn [negb].
      split; [intros _; eexists; reflexivity|].
      split; [intros; reflexivity|]. split; [discriminate|].
      intros; reflexivity. }
  rewrite (InstallGsfDriver_checked _ _ _ _ _ Hrom Hok).
  destruct (Nat.ltb_spec (length rom)
              (Z.to_nat (to_offset address) + gsf_driver_size (version param)))
    as [Hshort|Hfit].
  - split; [intros [H|H]; discriminate|].
    split; [discriminate|]. split; intros; reflexivity.
  - split; [intros [H|H]; discriminate|].
    split; [discriminate|]. split; [intros _ _ H; lia|].
    intros e He. exfalso.
    pose proof (InstallGsfDriver_stores rom address work_address work_size
                  param Hrom Hok Hfit) as Hst.
    rewrite (InstallGsfDriver_checked _ _ _ _ _ Hrom Hok) in Hst.
    destruct (Nat.ltb_spec (length rom)
                (Z.to_nat (to_offset address)
                 + gsf_driver_size (version param))); [lia|].
    rewrite Hst in He. exact (stores_no_throw _ _ _ He).
Qed.

(** C6. A successful [InstallGsfDriver], with templates whose patch
    positions are well formed, keeps the length of the image, leaves in its
    first 4 bytes the little-endian word [make_arm_b(0x8000000, address)],
    and changes no byte outside those 4 bytes and outside the block of
    [gsf_driver_size(version)] bytes at [to_offset(address)]. (The record is
    read through a const reference: the model only ever reads it.) *)
Theorem InstallGsfDriver_frame (rom : list byte)
  (address work_address work_size : Z) (param : GaxDriverParam) :
  wf_blocks = true ->
  snd (InstallGsfDriver address work_address work_size param rom)
  = Returned tt ->
  let rom' := fst (InstallGsfDriver address work_address work_size param rom) in
  let offset := Z.to_nat (to_offset address) in
  length rom' = length rom /\
  read_bytes rom' 0 4 = Some (le_split 4 (make_arm_b 0x8000000 address)) /\
  forall j, (4 <= j)%nat ->
            (j < offset \/ offset + gsf_driver_size (version param) <= j)%nat ->
            nth_error rom' j = nth_error rom j.
Proof.
  intros Hwf Hs rom' offset.
  destruct (InstallGsfDriver_success _ _ _ _ _ Hwf Hs) as [Hfit Hrom'].
  unfold rom'. rewrite Hrom'.
  pose proof (installed_length rom address work_address work_size param
                Hwf Hfit) as Hlen.
  split; [exact Hlen|]. split.
  - pose proof (driver_writes_in_range rom address work_address work_size
                  param Hwf Hfit) as Hr.
    unfold in_range, driver_writes in Hr.
    apply Forall_cons_iff in Hr. destruct Hr as [_ Hr].
    apply Forall_app in Hr. destruct Hr as [_ Hr].
    apply Forall_cons_iff in Hr. destruct Hr as [Hr _].
    cbn [fst snd] in Hr. rewrite length_le_split in Hr.
    rewrite read_bytes_in_range by (rewrite Hlen; exact Hr).
    cbn [skipn]. f_equal. apply installed_entry_vector; assumption.
  - intros j H4 Hout. apply installed_frame; assumption.
Qed.

Lemma resolve_work_address_range (param : GaxDriverParam) :
  0 <= resolve_work_address agbnullptr param < 2 ^ 32.
Proof.
  unfold resolve_work_address. rewrite Z.eqb_refl.
  destruct (_ && _); [|lia].
  destruct (_ <? _); [|lia].
  unfold wrap32. apply Z.mod_pos_bound. lia.
Qed.

(** C3. When the caller passes the null work address to a successful
    [InstallGsfDriver] (templates with well-formed patch positions, the
    detected pointer a 32-bit value), the word at the work-address position
    of the copied template is the resolved work address, and that address is
    - the detected work-RAM pointer plus 4, when that pointer is not null,
      has high bits 0x03000000 and is below 0x3004000;
    - 0x3000000 otherwise: a null pointer, a pointer of another region, or
      one at or above 0x3004000. *)
Theorem InstallGsfDriver_work_address (rom : list byte)
  (address work_size : Z) (param : GaxDriverParam) :
  wf_blocks = true ->
  0 <= gax_wram_pointer param < 2 ^ 32 ->
  snd (InstallGsfDriver address agbnullptr work_size param rom)
  = Returned tt ->
  let rom' := fst (InstallGsfDriver address agbnullptr work_size param rom) in
  let offset := Z.to_nat (to_offset address) in
  let slot := if major_version (version param) =? 3
              then kMyWorkRamOffsetV3 else kMyWorkRamOffsetV2 in
  let gax_ptr := gax_wram_pointer param in
  let resolved := resolve_work_address agbnullptr param in
  ReadInt32L rom' (offset + slot) = Returned resolved /\
  (gax_ptr <> agbnullptr -> Z.land gax_ptr 0xFF000000 = 0x03000000 ->
   gax_ptr < 0x3004000 -> resolved = gax_ptr + 4) /\
  (gax_ptr = agbnullptr \/ Z.land gax_ptr 0xFF000000 <> 0x03000000
   \/ 0x3004000 <= gax_ptr -> resolved = 0x3000000).
Proof.
  intros Hwf Hptr Hs rom' offset slot gax_ptr resolved.
  destruct (InstallGsfDriver_success _ _ _ _ _ Hwf Hs) as [Hfit Hrom'].
  split; [|split].
  - unfold rom'. rewrite Hrom'.
    rewrite <- (wrap32_small resolved) by apply resolve_work_address_range.
    apply installed_word; [assumption|assumption|].
    unfold patches, patches_V3, patches_V2, slot, resolved.
    destruct (major_version (version param) =? 3); in_list.
  - intros Hnn Hhigh Hlow. unfold resolved, resolve_work_address.
    rewrite Z.eqb_refl. fold gax_ptr.
    change (wrap32 (Z.lnot 0xFFFFFF)) with 0xFF000000.
    rewrite Hhigh. cbn [Z.eqb Pos.eqb andb].
    replace (gax_ptr =? agbnullptr) with false
      by (symmetry; apply Z.eqb_neq; exact Hnn).
    cbn [negb andb].
    destruct (Z.ltb_spec gax_ptr 0x3004000); [|lia].
    apply wrap32_small. unfold gax_ptr in *. lia.
  - intros Hcase. unfold resolved, resolve_work_address.
    rewrite Z.eqb_refl. fold gax_ptr.
    change (wrap32 (Z.lnot 0xFFFFFF)) with 0xFF000000.
    destruct (Z.eqb_spec gax_ptr agbnullptr) as [Hn|Hn]; cbn [negb andb];
      [reflexivity|].
    destruct (Z.eqb_spec (Z.land gax_ptr 0xFF000000) 0x3000000) as [Hh|Hh];
      [|reflexivity].
    destruct (Z.ltb_spec gax_ptr 0x3004000) as [Hl|Hl]; [|reflexivity].
    exfalso. destruct Hcase as [H|[H|H]]; [exact (Hn H) | exact (H Hh) | lia].
Qed.

(* ===================================================================== *)
(** ** Facts about [NewMinigsfData] *)
(* ===================================================================== *)

Lemma le_split_4_shape (v : Z) :
  exists b0 b1 b2 b3, le_split 4 v = [b0; b1; b2; b3].
Proof. cbn [le_split]. repeat eexists. Qed.

Lemma le_split_2_shape (v : Z) : exists b0 b1, le_split 2 v = [b0; b1].
Proof. cbn [le_split]. repeat eexists. Qed.

Lemma le_combine_le_split_2 (v : Z) :
  le_combine (le_split 2 v) = v mod 2 ^ 16.
Proof. rewrite le_combine_split. reflexivity. Qed.

Ltac read_field H :=
  unfold ReadInt32L, ReadInt16L, read_bytes;
  cbn [length Nat.leb Nat.add firstn skipn option_map access];
  rewrite <- H;
  rewrite ?le_combine_le_split_4, ?le_combine_le_split_2;
  unfold wrap32; rewrite Z.mod_small by lia; reflexivity.

(** C7. For parameters with [ok()] true (the fields being values of their
    widths), [NewMinigsfData] returns a block of exactly 20 bytes that
    holds, little-endian, the track address in bytes 0-3, the effect address
    (zero when there is no effect) in bytes 4-7, the effect id in bytes 8-9,
    the flags in bytes 10-11, the mixing rate in bytes 12-13 and the volume
    in bytes 14-15, bytes 16-19 being zero; reading each field back at its
    position gives the original value. For parameters with [ok()] false it
    throws invalid-argument, the message carrying the parameters' table, and
    returns no block. *)
Theorem NewMinigsfData_block (param : GaxMinigsfDriverParam) :
  (minigsf_ok param = true -> minigsf_fields_fit param ->
   exists data,
     NewMinigsfData param = Returned data /\
     length data = 20%nat /\
     ReadInt32L data 0 = Returned (address (song param)) /\
     ReadInt32L data 4
     = Returned (match fx param with Some e => address e | None => 0 end) /\
     ReadInt16L data 8 = Returned (fxid param) /\
     ReadInt16L data 10 = Returned (flags param) /\
     ReadInt16L data 12 = Returned (mixing_rate param) /\
     ReadInt16L data 14 = Returned (volume param) /\
     skipn 16 data = [x00; x00; x00; x00])
  /\
  (minigsf_ok param = false ->
   NewMinigsfData param
   = Thrown (invalid_argument
               ("The parameters for creating minigsfs are not sufficient."
                ++ endl ++ endl ++ MinigsfWriteAsTable param))).
Proof.
  split.
  - intros Hok (Hsong & Hfx & Hid & Hflags & Hrate & Hvol).
    unfold NewMinigsfData. rewrite Hok. cbn [negb].
    unfold WriteInt32L, WriteInt16L.
    assert (Hfx' : 0 <= match fx param with
                        | Some e => address e
                        | None => 0
                        end < 2 ^ 32)
      by (destruct (fx param); lia).
    destruct (le_split_4_shape (address (song param)))
      as (a0 & a1 & a2 & a3 & Ha).
    destruct (le_split_4_shape
                (match fx param with Some e => address e | None => 0 end))
      as (f0 & f1 & f2 & f3 & Hf).
    destruct (le_split_2_shape (fxid param)) as (i0 & i1 & Hi).
    destruct (le_split_2_shape (flags param)) as (g0 & g1 & Hg).
    destruct (le_split_2_shape (mixing_rate param)) as (m0 & m1 & Hm).
    destruct (le_split_2_shape (volume param)) as (v0 & v1 & Hv).
    rewrite Ha, Hf, Hi, Hg, Hm, Hv.
    eexists; split; [reflexivity|]. split; [reflexivity|].
    cbv [seq store write_bytes splice kMinigsfParamSize
         kMinigsfParamMyMusicOffset kMinigsfParamMyFxOffset
         kMinigsfParamMyFxIdOffset kMinigsfParamMyFlagsOffset
         kMinigsfParamMyMixingRateOffset kMinigsfParamMyVolumeOffset
         repeat firstn skipn app length Nat.leb Nat.add].
    split; [read_field Ha|]. split; [read_field Hf|].
    split; [read_field Hi|]. split; [read_field Hg|].
    split; [read_field Hm|]. split; [read_field Hv|].
    reflexivity.
  - intros Hok. unfold NewMinigsfData. rewrite Hok. reflexivity.
Qed.

(* ===================================================================== *)
(** ** Further facts about the finders *)
(* ===================================================================== *)

Lemma patterns_length (e : entry_point) :
  Forall (fun pat => length pat = pattern_length e) (patterns_of e).
Proof. destruct e; repeat constructor. Qed.

Lemma find_patterns_fits (rom : list byte) (offset : nat)
  (patterns : list (list byte)) (i : nat) :
  find_patterns rom offset patterns = Some i ->
  exists pat, In pat patterns /\ (offset <= i)%nat /\
              (i + length pat <= length rom)%nat.
Proof.
  intros H. apply find_patterns_Some in H.
  destruct H as (k & pat & Hn & (Hi & (pre & post & -> & <-) & _) & _).
  exists pat. split; [exact (nth_error_In _ _ Hn)|]. split; [exact Hi|].
  rewrite !length_app. lia.
Qed.

(** X1. A finder returns the null address on every image that is too short
    to hold one of its patterns at or after the lower bound; in particular
    on the empty image and for a lower bound past the end of the image. *)
Theorem finder_short_image (e : entry_point) (rom : list byte) (offset : nat) :
  (length rom < offset + pattern_length e)%nat ->
  finder_of e rom offset = agbnullptr.
Proof.
  intros Hshort. rewrite finder_of_find_entry. unfold find_entry.
  destruct (find_patterns rom offset (patterns_of e)) as [i|] eqn:E;
    [|reflexivity].
  exfalso. apply find_patterns_fits in E.
  destruct E as (pat & Hin & Hi & Hfit).
  pose proof (patterns_length e) as Hl. rewrite Forall_forall in Hl.
  rewrite (Hl pat Hin) in Hfit. lia.
Qed.

Lemma sv_find_restart (s pat : list byte) (pos pos' i : nat) :
  sv_find s pat pos = Some i -> (pos <= pos' <= i)%nat ->
  sv_find s pat pos' = Some i.
Proof.
  intros H Hp. apply sv_find_Some in H. destruct H as (_ & Ho & Hb).
  apply sv_find_complete. split; [lia|]. split; [exact Ho|].
  intros j Hj. apply Hb. lia.
Qed.

Lemma sv_find_None_later (s pat : list byte) (pos pos' : nat) :
  sv_find s pat pos = None -> (pos <= pos')%nat ->
  sv_find s pat pos' = None.
Proof.
  intros H Hp. destruct (sv_find s pat pos') as [k|] eqn:E; [|reflexivity].
  exfalso. apply sv_find_Some in E. destruct E as (Hk & Ho & _).
  apply (sv_find_None _ _ _ H k); [lia | exact Ho].
Qed.

Lemma find_patterns_restart (rom : list byte) (offset offset' : nat)
  (patterns : list (list byte)) (i : nat) :
  find_patterns rom offset patterns = Some i ->
  (offset <= offset' <= i)%nat ->
  find_patterns rom offset' patterns = Some i.
Proof.
  intros H Hp. induction patterns as [|p ps IH]; [discriminate|].
  cbn [find_patterns] in *.
  destruct (sv_find rom p offset) as [k|] eqn:E.
  - injection H as ->. rewrite (sv_find_restart _ _ _ _ _ E Hp). reflexivity.
  - rewrite (sv_find_None_later _ _ _ _ E) by lia. apply IH. exact H.
Qed.

Lemma find_patterns_None_later (rom : list byte) (offset offset' : nat)
  (patterns : list (list byte)) :
  find_patterns rom offset patterns = None ->
  (offset <= offset')%nat ->
  find_patterns rom offset' patterns = None.
Proof.
  intros H Hp. induction patterns as [|p ps IH]; [reflexivity|].
  cbn [find_patterns] in *.
  destruct (sv_find rom p offset) as [k|] eqn:E; [discriminate|].
  rewrite (sv_find_None_later _ _ _ _ E) by lia. apply IH. exact H.
Qed.

(** X2. Moving the lower bound of a finder forward changes nothing as long
    as it does not pass the match: when the scan from [offset] stops at
    position [i], the scan from any [offset'] between [offset] and [i]
    returns the same address; and when the scan from [offset] finds nothing,
    neither does the scan from any later lower bound. *)
Theorem finder_lower_bound (e : entry_point) (rom : list byte)
  (offset offset' : nat) :
  (forall i, find_patterns rom offset (patterns_of e) = Some i ->
             (offset <= offset' <= i)%nat ->
             finder_of e rom offset' = finder_of e rom offset)
  /\
  (find_patterns rom offset (patterns_of e) = None ->
   (offset <= offset')%nat ->
   finder_of e rom offset' = agbnullptr).
Proof.
  rewrite !finder_of_find_entry. unfold find_entry. split.
  - intros i H Hp. rewrite (find_patterns_restart _ _ _ _ _ H Hp), H.
    reflexivity.
  - intros H Hp. rewrite (find_patterns_None_later _ _ _ _ H Hp).
    reflexivity.
Qed.

(* ===================================================================== *)
(** ** Further facts about the version text *)
(* ===================================================================== *)

Lemma FindGaxVersionText_not_found (rom : list byte) (offset : nat) :
  sv_find rom kVersionTextPrefixPattern offset = None ->
  FindGaxVersionText rom offset = Returned [].
Proof. intros H. unfold FindGaxVersionText. rewrite H. reflexivity. Qed.

Lemma length_before_byte (c : byte) (l : list byte) :
  (length (before_byte c l) <= length l)%nat.
Proof.
  induction l as [|b l IH]; cbn; [lia|]. destruct (Byte.eqb b c); cbn; lia.
Qed.

Lemma FindGaxVersionText_found (rom : list byte) (offset start : nat) :
  sv_find rom kVersionTextPrefixPattern offset = Some start ->
  exists post,
    skipn start rom = kVersionTextPrefixPattern ++ post /\
    FindGaxVersionText rom offset
    = Returned (trim_copyright
                  (kVersionTextPrefixPattern
                   ++ before_byte x00 (firstn 111 post))).
Proof.
  intros H. unfold FindGaxVersionText. rewrite H.
  apply sv_find_Some in H. destruct H as (_ & (pre & post & Hrom & Hpre) & _).
  exists post.
  assert (Hskip : skipn start rom = kVersionTextPrefixPattern ++ post).
  { rewrite Hrom, <- Hpre, skipn_app, Nat.sub_diag, skipn_all. reflexivity. }
  split; [exact Hskip|].
  rewrite sv_substr_in_range; [| rewrite Hrom, length_app; lia | lia].
  change (Z.to_nat 128) with 128%nat.
  cbn [bind]. rewrite null_terminated. cbn [bind].
  rewrite Hskip, firstn_app, marker_length.
  rewrite (firstn_all2 kVersionTextPrefixPattern)
    by (rewrite marker_length; lia).
  rewrite before_byte_app by exact marker_no_null.
  change (128 - 17)%nat with 111%nat.
  apply copyright_trimmed.
  pose proof (length_before_byte x00 (firstn 111 post)).
  pose proof (firstn_le_length 111 post). lia.
Qed.

Lemma before_byte_prefix (c : byte) (l : list byte) :
  exists rest, l = before_byte c l ++ rest.
Proof.
  induction l as [|b l [rest IH]]; cbn; [exists []; reflexivity|].
  destruct (Byte.eqb b c); [exists (b :: l); reflexivity|].
  exists rest. cbn. f_equal. exact IH.
Qed.

Lemma before_byte_free (c : byte) (l : list byte) : ~ In c (before_byte c l).
Proof.
  induction l as [|b l IH]; cbn; [intros []|].
  destruct (Byte.eqb b c) eqn:E; cbn; [intros []|].
  intros [->|H]; [|exact (IH H)].
  rewrite (Byte.byte_dec_lb eq_refl) in E. discriminate.
Qed.

Lemma In_removelast {A : Type} (x : A) (l : list A) :
  In x (removelast l) -> In x l.
Proof.
  induction l as [|a l IH]; cbn; [intros []|].
  destruct l as [|a' l]; [intros []|]. intros [->|H]; [left; reflexivity|].
  right. apply IH. exact H.
Qed.

Lemma length_removelast_le {A : Type} (l : list A) :
  (length (removelast l) <= length l)%nat.
Proof.
  induction l as [|a l IH]; cbn; [lia|]. destruct l; cbn in *; lia.
Qed.

Lemma existsb_false_not_In (c : byte) (l : list byte) :
  existsb (fun b => Byte.eqb b c) l = false -> ~ In c l.
Proof.
  intros H Hin. assert (existsb (fun b => Byte.eqb b c) l = true); [|congruence].
  apply existsb_exists. exists c. split; [exact Hin|].
  apply Byte.byte_dec_lb. reflexivity.
Qed.

Lemma trim_copyright_subset (text : list byte) (b : byte) :
  In b (trim_copyright text) -> In b text.
Proof.
  unfold trim_copyright. destruct (existsb _ text); [|exact (fun H => H)].
  intros H. apply In_removelast in H.
  destruct (before_byte_prefix xa9 text) as [rest Hr].
  rewrite Hr. apply in_or_app. left. exact H.
Qed.

Lemma trim_copyright_free (text : list byte) : ~ In xa9 (trim_copyright text).
Proof.
  unfold trim_copyright. destruct (existsb _ text) eqn:E.
  - intros H. apply In_removelast in H. exact (before_byte_free _ _ H).
  - apply existsb_false_not_In. exact E.
Qed.

Lemma length_trim_copyright (text : list byte) :
  (length (trim_copyright text) <= length text)%nat.
Proof.
  unfold trim_copyright. destruct (existsb _ text); [|lia].
  pose proof (length_removelast_le (before_byte xa9 text)).
  pose proof (length_before_byte xa9 text). lia.
Qed.

Lemma trim_copyright_head (rest : list byte) :
  firstn 16 (trim_copyright (kVersionTextPrefixPattern ++ rest))
  = list_byte_of_string "GAX Sound Engine".
Proof.
  unfold trim_copyright.
  destruct (existsb _ (kVersionTextPrefixPattern ++ rest)); [|reflexivity].
  rewrite before_byte_app by exact marker_no_copyright.
  destruct (before_byte xa9 rest) as [|b l] eqn:E.
  - reflexivity.
  - rewrite removelast_app by discriminate. reflexivity.
Qed.

(** X3. [FindGaxVersionText] returns on every image and lower bound (the
    two [substr] calls never throw). The text it returns has at most 128
    bytes and holds neither a null byte nor a copyright-sign byte (0xA9).
    It is empty when the marker does not occur at or after the lower bound;
    when the marker does occur, the text begins with the 16 bytes
    "GAX Sound Engine" (the marker without its final space, which the
    copyright trim can remove). *)
Theorem FindGaxVersionText_shape (rom : list byte) (offset : nat) :
  exists text,
    FindGaxVersionText rom offset = Returned text /\
    (length text <= 128)%nat /\
    ~ In x00 text /\
    ~ In xa9 text /\
    ((text = [] /\
      forall j, (offset <= j)%nat ->
                ~ occurs_at rom kVersionTextPrefixPattern j)
     \/
     ((exists j, (offset <= j)%nat /\
                 occurs_at rom kVersionTextPrefixPattern j) /\
      firstn 16 text = list_byte_of_string "GAX Sound Engine")).
Proof.
  destruct (sv_find rom kVersionTextPrefixPattern offset) as [start|] eqn:E.
  - destruct (FindGaxVersionText_found _ _ _ E) as (post & _ & Hret).
    eexists. split; [exact Hret|].
    pose proof (length_before_byte x00 (firstn 111 post)) as Hb.
    pose proof (firstn_le_length 111 post) as Hf.
    split; [|split; [|split; [|right; split]]].
    + pose proof (length_trim_copyright
                    (kVersionTextPrefixPattern
                     ++ before_byte x00 (firstn 111 post))) as Ht.
      rewrite length_app, marker_length in Ht. lia.
    + intros H. apply trim_copyright_subset in H.
      apply in_app_or in H. destruct H as [H|H].
      * exact (existsb_false_not_In _ _ marker_no_null H).
      * exact (before_byte_free _ _ H).
    + apply trim_copyright_free.
    + apply sv_find_Some in E. destruct E as (Hs & Ho & _).
      exists start. split; assumption.
    + apply trim_copyright_head.
  - exists []. split; [apply FindGaxVersionText_not_found; exact E|].
    split; [cbn; lia|]. split; [intros []|]. split; [intros []|].
    left. split; [reflexivity|]. apply sv_find_None. exact E.
Qed.

(* ===================================================================== *)
(** ** Further facts about the work-RAM probe and [Inspect] *)
(* ===================================================================== *)

(** X4. The probe of the major-3 engines returns on every image and every
    [gax_play]: it reads nothing when [gax_play] is null or when the image
    ends within 4 bytes after the probe position (it then returns null), and
    otherwise reads 4 bytes inside the image. What it returns is null or a
    pointer into one of the two RAM regions, and a non-null result is the
    little-endian word stored at the probe position. *)
Theorem FindGaxWorkRamPointerV3_in_bounds (rom : list byte) (gax_play : Z) :
  let position := to_offset (wrap32 (gax_play + 0x124)) in
  exists ptr,
    FindGaxWorkRamPointerV3 rom gax_play = Returned ptr /\
    (ptr = agbnullptr \/ is_ewramptr ptr = true \/ is_iwramptr ptr = true) /\
    (gax_play = agbnullptr -> ptr = agbnullptr) /\
    (Z.of_nat (length rom) <= position + 4 -> ptr = agbnullptr) /\
    (ptr <> agbnullptr ->
     ReadInt32L rom (Z.to_nat position) = Returned ptr).
Proof.
  intros position. unfold FindGaxWorkRamPointerV3. fold position.
  destruct (Z.eqb_spec gax_play agbnullptr) as [Hn|Hn].
  { exists agbnullptr. repeat split; auto. intros H. contradiction. }
  pose proof (to_offset_range (wrap32 (gax_play + 0x124))) as Hr.
  fold position in Hr. rewrite wrap32_small by lia.
  destruct (Z.geb_spec (position + 4) (Z.of_nat (length rom))) as [H|H].
  { exists agbnullptr. repeat split; auto. intros H'. contradiction. }
  rewrite ReadInt32L_in_range by lia. cbn [bind].
  set (ptr := le_combine _).
  destruct (is_ewramptr ptr || is_iwramptr ptr) eqn:E.
  - exists ptr. apply orb_prop in E.
    repeat split; auto; try contradiction; intros; lia.
  - exists agbnullptr. repeat split; auto. intros H'. contradiction.
Qed.

Lemma ReadInt8_in_range (m : list byte) (i : nat) :
  (i + 1 <= length m)%nat ->
  ReadInt8 m i = Returned (le_combine (firstn 1 (skipn i m))).
Proof.
  intros H. unfold ReadInt8. rewrite read_bytes_in_range by exact H.
  reflexivity.
Qed.

(** X5. The probe of the other engines stays inside the image and returns
    null or a RAM pointer whenever the byte at offset 2 of [gax_play] is not
    0x4c, or the image reaches 0x138 bytes past [gax_play]: its bounds check
    covers the probe positions 0xc4 and 0xf0, and not 0x134. *)
Theorem FindGaxWorkRamPointerV2_in_bounds (rom : list byte) (gax_play : Z) :
  ReadInt8 rom (Z.to_nat (to_offset gax_play + 2)) <> Returned 0x4c \/
  to_offset gax_play + 0x138 <= Z.of_nat (length rom) ->
  exists ptr,
    FindGaxWorkRamPointerV2 rom gax_play = Returned ptr /\
    (ptr = agbnullptr \/ is_ewramptr ptr = true \/ is_iwramptr ptr = true).
Proof.
  intros [Hrel|Hlong]; [|apply FindGaxWorkRamPointerV2_safe_when_long; exact Hlong].
  unfold FindGaxWorkRamPointerV2.
  destruct (gax_play =? agbnullptr); [eexists; split; [reflexivity|auto]|].
  pose proof (to_offset_range gax_play) as Hr.
  set (o := to_offset gax_play) in *.
  rewrite (wrap32_small (o + 0xf4)) by lia.
  destruct (Z.geb_spec (o + 0xf4) (Z.of_nat (length rom))) as [H|H];
    [eexists; split; [reflexivity|auto]|].
  rewrite (wrap32_small (o + 2)) by lia.
  rewrite ReadInt8_in_range in Hrel |- * by lia. cbn [bind].
  set (rel := le_combine _) in *.
  assert (H4c : (rel =? 0x4c) = false)
    by (apply Z.eqb_neq; intros Heq; apply Hrel; rewrite Heq; reflexivity).
  rewrite H4c.
  assert (Hread : exists p,
             ReadInt32L rom
               (Z.to_nat (wrap32 (o + (if rel =? 0x30 then 0xc4 else 0xf0))))
             = Returned p).
  { destruct (rel =? 0x30); rewrite wrap32_small by lia;
      rewrite ReadInt32L_in_range by lia; eexists; reflexivity. }
  destruct Hread as [ptr Hptr]. rewrite Hptr. cbn [bind].
  destruct (is_ewramptr ptr) eqn:Ee; cbn [orb].
  - eexists; split; [reflexivity|auto].
  - destruct (is_iwramptr ptr) eqn:Ei; eexists; split; try reflexivity; auto.
Qed.

Lemma FindGaxVersionText_returns (rom : list byte) (offset : nat) :
  exists text, FindGaxVersionText rom offset = Returned text.
Proof.
  destruct (sv_find rom kVersionTextPrefixPattern offset) as [start|] eqn:E.
  - destruct (FindGaxVersionText_found _ _ _ E) as (post & _ & H).
    eexists. exact H.
  - exists []. apply FindGaxVersionText_not_found. exact E.
Qed.

Lemma ParseVersionText_returns (text : list byte) :
  exists v, ParseVersionText text = Returned v.
Proof.
  unfold ParseVersionText.
  destruct (Nat.ltb_spec (length text)
              (length kVersionTextPrefixPattern + 1)) as [H|H].
  - eexists. reflexivity.
  - destruct (nth_error text (length kVersionTextPrefixPattern)) as [c|] eqn:E.
    + eexists. reflexivity.
    + apply nth_error_None in E. lia.
Qed.

Lemma access_no_throw {A : Type} (o : option A) (e : exception) :
  access o <> Thrown e.
Proof. destruct o; discriminate. Qed.

Lemma FindGaxWorkRamPointer_no_throw (rom : list byte) (v : GaxVersion)
  (gax_play : Z) (e : exception) :
  FindGaxWorkRamPointer rom v gax_play <> Thrown e.
Proof.
  unfold FindGaxWorkRamPointer, FindGaxWorkRamPointerV3,
    FindGaxWorkRamPointerV2, ReadInt8, ReadInt32L.
  destruct (major_version v =? 3); destruct (gax_play =? agbnullptr);
    try discriminate.
  - destruct (_ >=? _); [discriminate|].
    destruct (read_bytes rom _ 4); cbn; discriminate.
  - destruct (_ >=? _); [discriminate|].
    destruct (read_bytes rom _ 1); cbn; [|discriminate].
    destruct (read_bytes rom _ 4); cbn; discriminate.
Qed.

Lemma Returned_inj {A : Type} (a b : A) : Returned a = Returned b -> a = b.
Proof. intros H. injection H as H. exact H. Qed.

Lemma ReadInt32L_out_of_range (m : list byte) (i : nat) :
  (length m < i + 4)%nat -> ReadInt32L m i = OutOfBounds.
Proof.
  intros H. unfold ReadInt32L, read_bytes.
  destruct (Nat.leb_spec (i + 4) (length m)); [lia|reflexivity].
Qed.

(** When exactly the probe of the non-major-3 engines leaves the image. *)
Lemma FindGaxWorkRamPointerV2_fails_iff (rom : list byte) (gax_play : Z) :
  FindGaxWorkRamPointerV2 rom gax_play = OutOfBounds <->
  gax_play <> agbnullptr /\
  ReadInt8 rom (Z.to_nat (to_offset gax_play + 2)) = Returned 0x4c /\
  to_offset gax_play + 0xf4 < Z.of_nat (length rom)
  < to_offset gax_play + 0x138.
Proof.
  unfold FindGaxWorkRamPointerV2.
  destruct (Z.eqb_spec gax_play agbnullptr) as [Hn|Hn].
  { split; [discriminate | intros (H & _); contradiction]. }
  pose proof (to_offset_range gax_play) as Hr.
  set (o := to_offset gax_play) in *.
  rewrite (wrap32_small (o + 0xf4)) by lia.
  destruct (Z.geb_spec (o + 0xf4) (Z.of_nat (length rom))) as [H|H].
  { split; [discriminate | intros (_ & _ & H'); lia]. }
  rewrite (wrap32_small (o + 2)) by lia.
  rewrite !ReadInt8_in_range by lia. cbn [bind].
  set (rel := le_combine _).
  destruct (Z.eqb_spec rel 0x30) as [H30|H30].
  { rewrite wrap32_small by lia. rewrite ReadInt32L_in_range by lia.
    cbn [bind]. split; [discriminate|].
    intros (_ & Hrel & _). apply Returned_inj in Hrel.
    rewrite H30 in Hrel. discriminate. }
  destruct (Z.eqb_spec rel 0x4c) as [H4c|H4c].
  - rewrite wrap32_small by lia.
    destruct (Z.le_gt_cases (o + 0x138) (Z.of_nat (length rom))) as [Hl|Hl].
    + rewrite ReadInt32L_in_range by lia. cbn [bind].
      split; [discriminate | intros (_ & _ & H'); lia].
    + rewrite ReadInt32L_out_of_range by lia. cbn [bind].
      split; [|reflexivity]. intros _.
      split; [exact Hn|]. split; [rewrite H4c; reflexivity | lia].
  - rewrite wrap32_small by lia. rewrite ReadInt32L_in_range by lia.
    cbn [bind]. split; [discriminate|].
    intros (_ & Hrel & _). apply Returned_inj in Hrel. contradiction.
Qed.

(** X6. [Inspect] throws nothing, and it fails in one way only, the read of
    the probe for the non-major-3 engines past the end of the image: that
    happens exactly when the parsed major version is not 3, [gax_play] is
    found, the byte at offset 2 of [gax_play] is 0x4c, and the image ends
    more than 0xf4 and fewer than 0x138 bytes behind the offset of
    [gax_play]. In every other case [Inspect] returns a record. *)
Theorem Inspect_fails_only_in_V2_probe (rom : list byte) :
  let gax_play :=
    FindGaxPlay rom (Z.to_nat (to_offset (FindGax2Estimate rom 0))) in
  let probe_leaves_image :=
    (exists text v,
        FindGaxVersionText rom 0 = Returned text /\
        ParseVersionText text = Returned v /\
        major_version v <> 3) /\
    gax_play <> agbnullptr /\
    ReadInt8 rom (Z.to_nat (to_offset gax_play + 2)) = Returned 0x4c /\
    to_offset gax_play + 0xf4 < Z.of_nat (length rom)
    < to_offset gax_play + 0x138 in
  (forall e, Inspect rom <> Thrown e) /\
  (Inspect rom = OutOfBounds <-> probe_leaves_image) /\
  ((exists param, Inspect rom = Returned param) <-> ~ probe_leaves_image).
Proof.
  intros gax_play probe_leaves_image.
  destruct (FindGaxVersionText_returns rom 0) as [text Htext].
  destruct (ParseVersionText_returns text) as [v Hv].
  assert (Hshape : Inspect rom
                   = (w <- FindGaxWorkRamPointer rom v gax_play ;;
                      Returned
                        {| version_text := text;
                           version := v;
                           gax2_estimate := FindGax2Estimate rom 0;
                           gax2_new :=
                             FindGax2New rom
                               (Z.to_nat (to_offset (FindGax2Estimate rom 0)));
                           gax2_init :=
                             FindGax2Init rom
                               (Z.to_nat (to_offset (FindGax2Estimate rom 0)));
                           gax_irq :=
                             FindGaxIrq rom
                               (Z.to_nat (to_offset (FindGax2Estimate rom 0)));
                           gax_play := gax_play;
                           gax_wram_pointer := w;
                           songs := Scan rom v |})).
  { unfold Inspect. rewrite Htext. cbn [bind]. rewrite Hv. reflexivity. }
  assert (Hiff : FindGaxWorkRamPointer rom v gax_play = OutOfBounds
                 <-> probe_leaves_image).
  { unfold probe_leaves_image, FindGaxWorkRamPointer.
    destruct (Z.eqb_spec (major_version v) 3) as [H3|H3].
    - destruct (FindGaxWorkRamPointerV3_safe rom gax_play) as (p & -> & _).
      split; [discriminate|].
      intros ((text' & v' & Ht & Hp & Hm) & _).
      rewrite Htext in Ht. apply Returned_inj in Ht. subst text'.
      rewrite Hv in Hp. apply Returned_inj in Hp. subst v'. contradiction.
    - rewrite FindGaxWorkRamPointerV2_fails_iff. split.
      + intros H. split; [|exact H]. exists text, v. repeat split; assumption.
      + intros (_ & H). exact H. }
  rewrite Hshape.
  pose proof (FindGaxWorkRamPointer_no_throw rom v gax_play) as Hnt.
  destruct (FindGaxWorkRamPointer rom v gax_play) as [w|e'|] eqn:E;
    cbn [bind].
  - split; [discriminate|]. split.
    + split; [discriminate|]. intros H. apply Hiff in H. discriminate.
    + split; [|intros _; eexists; reflexivity].
      intros _ H. apply Hiff in H. discriminate.
  - exfalso. exact (Hnt e' eq_refl).
  - split; [discriminate|]. split.
    + split; [intros _; apply Hiff; reflexivity | reflexivity].
    + split; [intros [param H]; discriminate|].
      intros H. exfalso. apply H. apply Hiff. reflexivity.
Qed.

(** X7. [Inspect] returns a record whenever [gax_play] is not found, or the
    image reaches 0x138 bytes past the offset of the [gax_play] it finds. *)
Theorem Inspect_returns (rom : list byte) :
  let gax_play :=
    FindGaxPlay rom (Z.to_nat (to_offset (FindGax2Estimate rom 0))) in
  gax_play = agbnullptr \/
  to_offset gax_play + 0x138 <= Z.of_nat (length rom) ->
  exists param, Inspect rom = Returned param.
Proof.
  intros gax_play Hplay. unfold Inspect. fold gax_play.
  destruct (FindGaxVersionText_returns rom 0) as [text ->]. cbn [bind].
  destruct (ParseVersionText_returns text) as [v ->]. cbn [bind].
  assert (Hprobe : exists ptr,
             FindGaxWorkRamPointer rom v gax_play = Returned ptr).
  { unfold FindGaxWorkRamPointer. destruct (major_version v =? 3).
    - destruct (FindGaxWorkRamPointerV3_safe rom gax_play) as (ptr & H & _).
      exists ptr. exact H.
    - destruct Hplay as [Hnull|Hlong].
      + exists agbnullptr. unfold FindGaxWorkRamPointerV2.
        rewrite Hnull, Z.eqb_refl. reflexivity.
      + destruct (FindGaxWorkRamPointerV2_safe_when_long rom gax_play Hlong)
          as (ptr & H & _).
        exists ptr. exact H. }
  destruct Hprobe as [ptr ->]. cbn [bind]. eexists. reflexivity.
Qed.

Lemma Inspect_parts (rom : list byte) (param : GaxDriverParam) :
  Inspect rom = Returned param ->
  FindGaxVersionText rom 0 = Returned (version_text param) /\
  ParseVersionText (version_text param) = Returned (version param) /\
  FindGaxWorkRamPointer rom (version param) (gax_play param)
  = Returned (gax_wram_pointer param).
Proof.
  unfold Inspect.
  destruct (FindGaxVersionText rom 0) as [text| |]; cbn [bind];
    try discriminate.
  destruct (ParseVersionText text) as [v| |] eqn:Ev; cbn [bind];
    try discriminate.
  destruct (FindGaxWorkRamPointer _ _ _) as [w| |] eqn:Ew; cbn [bind];
    try discriminate.
  intros H. injection H as <-. cbn. repeat split; assumption.
Qed.

(** X8. On an image in which the marker "GAX Sound Engine " does not occur,
    every record that [Inspect] produces has an empty version text and the
    unknown version, and its work-RAM pointer is the one of the probe for
    the non-major-3 engines. *)
Theorem Inspect_without_marker (rom : list byte) (param : GaxDriverParam) :
  (forall j, ~ occurs_at rom kVersionTextPrefixPattern j) ->
  Inspect rom = Returned param ->
  version_text param = [] /\
  version param = GaxVersion_unknown /\
  FindGaxWorkRamPointerV2 rom (gax_play param)
  = Returned (gax_wram_pointer param).
Proof.
  intros Hno Hins. apply Inspect_parts in Hins.
  destruct Hins as (Htext & Hver & Hprobe).
  assert (Hfind : sv_find rom kVersionTextPrefixPattern 0 = None).
  { destruct (sv_find rom kVersionTextPrefixPattern 0) as [i|] eqn:E;
      [|reflexivity].
    exfalso. apply sv_find_Some in E. destruct E as (_ & Ho & _).
    exact (Hno i Ho). }
  rewrite (FindGaxVersionText_not_found _ _ Hfind) in Htext.
  injection Htext as Htext. rewrite <- Htext in *.
  assert (Hv : version param = GaxVersion_unknown).
  { change (ParseVersionText []) with (Returned GaxVersion_unknown) in Hver.
    injection Hver as Hver. symmetry. exact Hver. }
  split; [reflexivity|]. split; [exact Hv|].
  rewrite Hv in Hprobe. exact Hprobe.
Qed.

(* ===================================================================== *)
(** ** Further facts about [InstallGsfDriver] *)
(* ===================================================================== *)

Lemma nth_error_splice_all (m : list byte) (ws : list (nat * list byte))
  (j : nat) :
  in_range m ws ->
  nth_error (splice_all m ws) j
  = match written ws j with
    | Some b => Some b
    | None => nth_error m j
    end.
Proof.
  unfold in_range, splice_all. revert m.
  induction ws as [|[i bs] ws IH]; intros m H; [reflexivity|].
  inversion H as [|? ? Hw Hws]; subst. cbn [fst snd] in Hw.
  cbn [fold_left written fst snd].
  rewrite IH by (rewrite length_splice by exact Hw; exact Hws).
  destruct (written ws j); [reflexivity|].
  rewrite nth_error_splice by exact Hw.
  destruct (Nat.ltb_spec j i) as [Hj|Hj].
  - replace (i <=? j)%nat with false by (symmetry; apply Nat.leb_gt; exact Hj).
    reflexivity.
  - replace (i <=? j)%nat with true by (symmetry; apply Nat.leb_le; exact Hj).
    cbn [andb].
    destruct (Nat.ltb_spec j (i + length bs)) as [Hb|Hb]; [|reflexivity].
    destruct (nth_error bs (j - i)) as [b|] eqn:E; [reflexivity|].
    apply nth_error_None in E. lia.
Qed.

Lemma splice_all_idempotent (m : list byte) (ws : list (nat * list byte)) :
  in_range m ws -> splice_all (splice_all m ws) ws = splice_all m ws.
Proof.
  intros H. apply nth_error_ext. intros j.
  rewrite (nth_error_splice_all (splice_all m ws)).
  - rewrite nth_error_splice_all by exact H.
    destruct (written ws j); reflexivity.
  - unfold in_range. rewrite length_splice_all by exact H. exact H.
Qed.

Lemma stores_Returned_in_range (ws : list (nat * list byte)) (m : list byte) :
  snd (stores ws m) = Returned tt -> in_range m ws.
Proof.
  unfold in_range. revert m.
  induction ws as [|[i bs] ws IH]; intros m H; [constructor|].
  cbn [stores] in H. unfold seq, store, write_bytes in H.
  destruct (Nat.leb_spec (i + length bs) (length m)) as [Hi|Hi];
    [|discriminate].
  constructor; [exact Hi|].
  apply IH in H. rewrite length_splice in H by exact Hi. exact H.
Qed.

Lemma length_stores (ws : list (nat * list byte)) (m : list byte) :
  length (fst (stores ws m)) = length m.
Proof.
  revert m. induction ws as [|[i bs] ws IH]; intros m; [reflexivity|].
  cbn [stores]. unfold seq, store, write_bytes.
  destruct (Nat.leb_spec (i + length bs) (length m)) as [Hi|Hi];
    [|reflexivity].
  rewrite IH. apply length_splice. exact Hi.
Qed.

(** X9. [InstallGsfDriver] is idempotent: after a successful install, the
    same call on the resulting image succeeds again and leaves that image
    as it is. *)
Theorem InstallGsfDriver_idempotent (rom : list byte)
  (address work_address work_size : Z) (param : GaxDriverParam) :
  snd (InstallGsfDriver address work_address work_size param rom)
  = Returned tt ->
  let rom' := fst (InstallGsfDriver address work_address work_size param rom) in
  InstallGsfDriver address work_address work_size param rom'
  = (rom', Returned tt).
Proof.
  intros Hs rom'.
  destruct (InstallGsfDriver_success_inv _ _ _ _ _ Hs) as (Hrom & Hok & Hfit).
  pose proof (InstallGsfDriver_stores rom address work_address work_size
                param Hrom Hok Hfit) as Hst.
  rewrite Hst in Hs. apply stores_Returned_in_range in Hs.
  assert (Hrom' : rom' = splice_all rom
                           (driver_writes address work_address work_size param)).
  { unfold rom'. rewrite Hst, stores_splice_all by exact Hs. reflexivity. }
  rewrite Hrom'.
  rewrite InstallGsfDriver_stores;
    [| exact Hrom | exact Hok | rewrite length_splice_all by exact Hs; exact Hfit].
  rewrite stores_splice_all
    by (unfold in_range; rewrite length_splice_all by exact Hs; exact Hs).
  rewrite splice_all_idempotent by exact Hs. reflexivity.
Qed.

(** X10. With templates whose patch positions are well formed,
    [InstallGsfDriver] never writes outside the image, and it succeeds
    exactly when the target is a ROM address, the record is complete and the
    template fits into the image behind the target offset; whatever the
    outcome, the image keeps its length. *)
Theorem InstallGsfDriver_in_bounds (rom : list byte)
  (address work_address work_size : Z) (param : GaxDriverParam) :
  wf_blocks = true ->
  let run := InstallGsfDriver address work_address work_size param rom in
  snd run <> OutOfBounds /\
  (snd run = Returned tt <->
   is_romptr address = true /\
   GaxDriverParam_ok param = true /\
   (Z.to_nat (to_offset address) + gsf_driver_size (version param)
    <= length rom)%nat) /\
  length (fst run) = length rom.
Proof.
  intros Hwf run. subst run.
  destruct (is_romptr address) eqn:Hrom.
  2:{ unfold InstallGsfDriver. rewrite Hrom. cbn [negb].
      split; [discriminate|]. split; [|reflexivity].
      split; [discriminate | intros (H & _); discriminate]. }
  destruct (GaxDriverParam_ok param) eqn:Hok.
  2:{ unfold InstallGsfDriver. rewrite Hrom, Hok. cbn [negb].
      split; [discriminate|]. split; [|reflexivity].
      split; [discriminate | intros (_ & H & _); discriminate]. }
  destruct (Nat.ltb_spec (length rom)
              (Z.to_nat (to_offset address) + gsf_driver_size (version param)))
    as [Hshort|Hfit].
  - rewrite (InstallGsfDriver_checked _ _ _ _ _ Hrom Hok).
    destruct (Nat.ltb_spec (length rom)
                (Z.to_nat (to_offset address)
                 + gsf_driver_size (version param))); [|lia].
    split; [discriminate|]. split; [|reflexivity].
    split; [discriminate | intros (_ & _ & H'); lia].
  - rewrite InstallGsfDriver_returns by assumption.
    split; [discriminate|]. split.
    + split; [intros _; repeat split; assumption | reflexivity].
    + apply installed_length; assumption.
Qed.

Lemma resolve_work_address_explicit (work_address : Z)
  (param : GaxDriverParam) :
  work_address <> agbnullptr ->
  resolve_work_address work_address param = work_address.
Proof.
  intros H. unfold resolve_work_address.
  destruct (Z.eqb_spec work_address agbnullptr); [contradiction|reflexivity].
Qed.

(** X11. A work address that the caller supplies (not null) is patched in as
    it is, whatever work-RAM pointer the record holds: after a successful
    install with well-formed templates, the word at the work-address
    position of the copied template is the supplied address. *)
Theorem InstallGsfDriver_explicit_work_address (rom : list byte)
  (address work_address work_size : Z) (param : GaxDriverParam) :
  wf_blocks = true ->
  work_address <> agbnullptr ->
  snd (InstallGsfDriver address work_address work_size param rom)
  = Returned tt ->
  let rom' := fst (InstallGsfDriver address work_address work_size param rom) in
  let slot := if major_version (version param) =? 3
              then kMyWorkRamOffsetV3 else kMyWorkRamOffsetV2 in
  ReadInt32L rom' (Z.to_nat (to_offset address) + slot)
  = Returned (wrap32 work_address).
Proof.
  intros Hwf Hnn Hs rom' slot.
  destruct (InstallGsfDriver_success _ _ _ _ _ Hwf Hs) as [Hfit Hrom'].
  unfold rom'. rewrite Hrom'.
  apply installed_word; [assumption|assumption|].
  rewrite (resolve_work_address_explicit _ _ Hnn).
  unfold patches, patches_V3, patches_V2, slot.
  destruct (major_version (version param) =? 3); in_list.
Qed.

(** X12. Under the major-3 template, a successful install with well-formed
    templates leaves at position [kGax2ParamFxImmOffsetV3] of the copied
    template the byte 0x30 when the minor version is at least 5 and the
    byte 0x2c otherwise. *)
Theorem InstallGsfDriver_fx_immediate (rom : list byte)
  (address work_address work_size : Z) (param : GaxDriverParam) :
  wf_blocks = true ->
  major_version (version param) = 3 ->
  snd (InstallGsfDriver address work_address work_size param rom)
  = Returned tt ->
  let rom' := fst (InstallGsfDriver address work_address work_size param rom) in
  ReadInt8 rom' (Z.to_nat (to_offset address) + kGax2ParamFxImmOffsetV3)
  = Returned (if minor_version (version param) >=? 5 then 0x30 else 0x2c).
Proof.
  intros Hwf Hmajor Hs rom'.
  destruct (InstallGsfDriver_success _ _ _ _ _ Hwf Hs) as [Hfit Hrom'].
  unfold rom'. rewrite Hrom'.
  pose proof (installed_patch rom address work_address work_size param
                Hwf Hfit kGax2ParamFxImmOffsetV3
                (le_split 1 (if minor_version (version param) >=? 5
                             then 0x30 else 0x2c))) as H.
  rewrite length_le_split in H. unfold ReadInt8. rewrite H.
  - cbn [option_map access]. rewrite le_combine_split.
    destruct (minor_version (version param) >=? 5); reflexivity.
  - unfold patches, patches_V3. rewrite Hmajor. in_list.
Qed.

(** X13. The work size only matters to the non-major-3 template. Under
    major 3 [InstallGsfDriver] does the same whatever work size it is given;
    under any other major version a successful install with well-formed
    templates leaves the work size as the word at position
    [kMyWorkRamSizeOffsetV2] of the copied template. *)
Theorem InstallGsfDriver_work_size (rom : list byte)
  (address work_address work_size : Z) (param : GaxDriverParam) :
  (major_version (version param) = 3 ->
   forall work_size',
     InstallGsfDriver address work_address work_size' param rom
     = InstallGsfDriver address work_address work_size param rom)
  /\
  (major_version (version param) <> 3 ->
   wf_blocks = true ->
   snd (InstallGsfDriver address work_address work_size param rom)
   = Returned tt ->
   ReadInt32L
     (fst (InstallGsfDriver address work_address work_size param rom))
     (Z.to_nat (to_offset address) + kMyWorkRamSizeOffsetV2)
   = Returned (wrap32 work_size)).
Proof.
  split.
  - intros Hmajor work_size'.
    unfold InstallGsfDriver, patch_driver_block. rewrite Hmajor. reflexivity.
  - intros Hmajor Hwf Hs.
    destruct (InstallGsfDriver_success _ _ _ _ _ Hwf Hs) as [Hfit Hrom'].
    rewrite Hrom'. apply installed_word; [assumption|assumption|].
    unfold patches, patches_V2.
    destruct (Z.eqb_spec (major_version (version param)) 3);
      [contradiction|]. in_list.
Qed.

(** X14. Outside the patched positions the copied template is verbatim:
    after a successful install with well-formed templates, every byte of the
    template block that lies in no patch slot and not in the entry vector is
    the byte of the template at the same position. *)
Theorem InstallGsfDriver_template_verbatim (rom : list byte)
  (address work_address work_size : Z) (param : GaxDriverParam) (j : nat) :
  wf_blocks = true ->
  snd (InstallGsfDriver address work_address work_size param rom)
  = Returned tt ->
  (j < gsf_driver_size (version param))%nat ->
  (4 <= Z.to_nat (to_offset address) + j)%nat ->
  (forall s, In s (slots (version param)) ->
             (j < fst s \/ fst s + snd s <= j)%nat) ->
  nth_error (fst (InstallGsfDriver address work_address work_size param rom))
    (Z.to_nat (to_offset address) + j)
  = nth_error (driver_block (version param)) j.
Proof.
  intros Hwf Hs Hj H4 Hfree.
  destruct (InstallGsfDriver_success _ _ _ _ _ Hwf Hs) as [Hfit Hrom'].
  rewrite Hrom'. clear Hrom' Hs.
  pose proof (driver_writes_in_range rom address work_address work_size
                param Hwf Hfit) as Hr.
  rewrite gsf_driver_size_block in Hj, Hfit.
  unfold driver_writes in *. set (offset := Z.to_nat (to_offset address)) in *.
  unfold in_range in Hr. apply Forall_cons_iff in Hr. destruct Hr as [_ Hr].
  unfold splice_all. cbn [fold_left fst snd].
  fold (splice_all (splice rom offset (driver_block (version param)))
          (map (fun w => ((offset + fst w)%nat, snd w))
               (patches (resolve_work_address work_address param)
                  work_size param)
           ++ [(0%nat, le_split 4 (make_arm_b 0x8000000 address))])).
  rewrite splice_all_untouched.
  - rewrite nth_error_splice by exact Hfit.
    destruct (Nat.ltb_spec (offset + j) offset); [lia|].
    destruct (Nat.ltb_spec (offset + j)
                (offset + length (driver_block (version param)))); [|lia].
    f_equal. lia.
  - unfold in_range. rewrite length_splice by exact Hfit. exact Hr.
  - intros w Hw. apply in_app_or in Hw. destruct Hw as [Hw|[<-|[]]].
    + apply in_map_iff in Hw. destruct Hw as (w' & <- & Hw'). cbn [fst snd].
      assert (Hslot : In (fst w', length (snd w')) (slots (version param))).
      { rewrite <- (slots_of_patches
                      (resolve_work_address work_address param) work_size).
        apply (in_map (fun w => (fst w, length (snd w)))). exact Hw'. }
      specialize (Hfree _ Hslot). cbn [fst snd] in Hfree. lia.
    + cbn [fst snd]. rewrite length_le_split. lia.
Qed.

(** X15. When the caller passes the null work address, the address that
    [InstallGsfDriver] resolves lies between 0x3000000 and 0x3004003,
    whatever (non-negative) work-RAM pointer the record holds. *)
Theorem resolve_work_address_default_range (param : GaxDriverParam) :
  0 <= gax_wram_pointer param ->
  0x3000000 <= resolve_work_address agbnullptr param <= 0x3004003.
Proof.
  intros Hptr. unfold resolve_work_address. rewrite Z.eqb_refl.
  change (wrap32 (Z.lnot 0xFFFFFF)) with 0xFF000000.
  destruct (negb _); cbn [andb]; [|lia].
  destruct (Z.eqb_spec (Z.land (gax_wram_pointer param) 0xFF000000) 0x3000000)
    as [Hh|Hh]; [|lia].
  destruct (Z.ltb_spec (gax_wram_pointer param) 0x3004000) as [Hl|Hl]; [|lia].
  assert (Hge : Z.land (gax_wram_pointer param) 0xFF000000
                <= gax_wram_pointer param).
  { pose proof (Z.sub_land_same_l (gax_wram_pointer param) 0xFF000000) as Hsub.
    assert (0 <= Z.land (gax_wram_pointer param) (Z.lnot 0xFF000000))
      by (apply Z.land_nonneg; left; exact Hptr).
    lia. }
  rewrite wrap32_small by lia. lia.
Qed.

(* ===================================================================== *)
(** ** Further facts about [NewMinigsfData] *)
(* ===================================================================== *)

(** The block, byte for byte. *)
Lemma NewMinigsfData_bytes (param : GaxMinigsfDriverParam) :
  minigsf_ok param = true ->
  NewMinigsfData param
  = Returned
      (le_split 4 (address (song param))
       ++ le_split 4 (match fx param with Some e => address e | None => 0 end)
       ++ le_split 2 (fxid param)
       ++ le_split 2 (flags param)
       ++ le_split 2 (mixing_rate param)
       ++ le_split 2 (volume param)
       ++ [x00; x00; x00; x00]).
Proof.
  intros Hok. unfold NewMinigsfData. rewrite Hok. cbn [negb].
  unfold WriteInt32L, WriteInt16L.
  destruct (le_split_4_shape (address (song param)))
    as (a0 & a1 & a2 & a3 & ->).
  destruct (le_split_4_shape
              (match fx param with Some e => address e | None => 0 end))
    as (f0 & f1 & f2 & f3 & ->).
  destruct (le_split_2_shape (fxid param)) as (i0 & i1 & ->).
  destruct (le_split_2_shape (flags param)) as (g0 & g1 & ->).
  destruct (le_split_2_shape (mixing_rate param)) as (m0 & m1 & ->).
  destruct (le_split_2_shape (volume param)) as (v0 & v1 & ->).
  reflexivity.
Qed.

Lemma app_inj_length {A : Type} (l1 l2 r1 r2 : list A) :
  length l1 = length l2 -> l1 ++ r1 = l2 ++ r2 -> l1 = l2 /\ r1 = r2.
Proof.
  revert l2. induction l1 as [|a l1 IH]; intros [|b l2] Hlen H;
    try discriminate.
  - split; [reflexivity | exact H].
  - cbn in H. injection H as -> H. injection Hlen as Hlen.
    destruct (IH _ Hlen H) as [-> ->]. split; reflexivity.
Qed.

Lemma le_split_inj (n : nat) (x y : Z) :
  0 <= x < 2 ^ (Z.of_nat n * 8) -> 0 <= y < 2 ^ (Z.of_nat n * 8) ->
  le_split n x = le_split n y -> x = y.
Proof.
  intros Hx Hy H. apply (f_equal le_combine) in H.
  rewrite !le_combine_split in H. rewrite !Z.mod_small in H by assumption.
  exact H.
Qed.

(** X16. The block determines the parameters it encodes: two complete
    parameter sets (fields of their widths) that serialize to the same block
    have the same track address, the same effect address (an absent effect
    counting as address 0), and the same effect id, flags, mixing rate and
    volume. *)
Theorem NewMinigsfData_injective (p q : GaxMinigsfDriverParam) :
  minigsf_ok p = true -> minigsf_ok q = true ->
  minigsf_fields_fit p -> minigsf_fields_fit q ->
  NewMinigsfData p = NewMinigsfData q ->
  address (song p) = address (song q) /\
  match fx p with Some e => address e | None => 0 end
  = match fx q with Some e => address e | None => 0 end /\
  fxid p = fxid q /\
  flags p = flags q /\
  mixing_rate p = mixing_rate q /\
  volume p = volume q.
Proof.
  intros Hp Hq (Ps & Pf & Pi & Pg & Pm & Pv) (Qs & Qf & Qi & Qg & Qm & Qv) H.
  rewrite (NewMinigsfData_bytes p Hp), (NewMinigsfData_bytes q Hq) in H.
  apply Returned_inj in H.
  assert (Pf' : 0 <= match fx p with Some e => address e | None => 0 end
                < 2 ^ 32) by (destruct (fx p); lia).
  assert (Qf' : 0 <= match fx q with Some e => address e | None => 0 end
                < 2 ^ 32) by (destruct (fx q); lia).
  apply app_inj_length in H; [|rewrite !length_le_split; reflexivity].
  destruct H as [H1 H].
  apply app_inj_length in H; [|rewrite !length_le_split; reflexivity].
  destruct H as [H2 H].
  apply app_inj_length in H; [|rewrite !length_le_split; reflexivity].
  destruct H as [H3 H].
  apply app_inj_length in H; [|rewrite !length_le_split; reflexivity].
  destruct H as [H4 H].
  apply app_inj_length in H; [|rewrite !length_le_split; reflexivity].
  destruct H as [H5 H].
  apply app_inj_length in H; [|rewrite !length_le_split; reflexivity].
  destruct H as [H6 _].
  repeat split;
    first [ apply (le_split_inj 4); assumption
          | apply (le_split_inj 2); assumption ].
Qed.

(* ===================================================================== *)
(** ** Further invariants of what the scanner returns *)
(* ===================================================================== *)

(** X18. On an image that fits the ROM window, an address that a finder
    returns, when it is not null, is the address of a place in the image:
    its offset is at or after the lower bound, one of the finder's patterns
    occurs at that offset, and the pattern ends inside the image. *)
Theorem finder_result_inside_image (e : entry_point) (rom : list byte)
  (offset : nat) :
  Z.of_nat (length rom) <= 0x2000000 ->
  finder_of e rom offset <> agbnullptr ->
  let found := Z.to_nat (to_offset (finder_of e rom offset)) in
  (offset <= found)%nat /\
  (found + pattern_length e <= length rom)%nat /\
  exists pat, In pat (patterns_of e) /\ occurs_at rom pat found.
Proof.
  intros Hrom Hnn found.
  destruct (finder_found_offset e rom offset Hrom Hnn) as (i & Hfind & Hoff).
  assert (Hi : found = i) by (unfold found; rewrite Hoff; apply Nat2Z.id).
  rewrite Hi. apply find_patterns_Some in Hfind.
  destruct Hfind as (k & pat & Hn & (Hle & Hocc & _) & _).
  apply nth_error_In in Hn.
  pose proof (patterns_length e) as Hl. rewrite Forall_forall in Hl.
  specialize (Hl pat Hn).
  split; [exact Hle|]. split.
  - destruct Hocc as (pre & post & -> & <-). rewrite !length_app. lia.
  - exists pat. split; assumption.
Qed.

Lemma FindGaxWorkRamPointer_region (rom : list byte) (v : GaxVersion)
  (gax_play ptr : Z) :
  FindGaxWorkRamPointer rom v gax_play = Returned ptr ->
  ptr = agbnullptr \/ is_ewramptr ptr = true \/ is_iwramptr ptr = true.
Proof.
  assert (Hsel : forall p q,
             Returned (if is_ewramptr p || is_iwramptr p
                       then p else agbnullptr) = Returned q ->
             q = agbnullptr \/ is_ewramptr q = true \/ is_iwramptr q = true).
  { intros p q H. apply Returned_inj in H. subst q.
    destruct (is_ewramptr p) eqn:Ee; cbn [orb]; [right; left; exact Ee|].
    destruct (is_iwramptr p) eqn:Ei; [right; right; exact Ei|].
    left. reflexivity. }
  assert (Hnull : forall q,
             Returned agbnullptr = Returned q ->
             q = agbnullptr \/ is_ewramptr q = true \/ is_iwramptr q = true).
  { intros q H. apply Returned_inj in H. left. symmetry. exact H. }
  unfold FindGaxWorkRamPointer, FindGaxWorkRamPointerV3,
    FindGaxWorkRamPointerV2.
  destruct (major_version v =? 3); destruct (gax_play =? agbnullptr);
    try apply Hnull.
  - destruct (_ >=? _); [apply Hnull|].
    destruct (ReadInt32L rom _) as [p| |]; cbn [bind]; try discriminate.
    apply Hsel.
  - destruct (_ >=? _); [apply Hnull|].
    destruct (ReadInt8 rom _) as [rel| |]; cbn [bind]; try discriminate.
    destruct (ReadInt32L rom _) as [p| |]; cbn [bind]; try discriminate.
    apply Hsel.
Qed.

(** X19. In every record that [Inspect] produces, the work-RAM pointer is
    null or a pointer into one of the two RAM regions. *)
Theorem Inspect_wram_pointer_region (rom : list byte)
  (param : GaxDriverParam) :
  Inspect rom = Returned param ->
  gax_wram_pointer param = agbnullptr \/
  is_ewramptr (gax_wram_pointer param) = true \/
  is_iwramptr (gax_wram_pointer param) = true.
Proof.
  intros H. apply Inspect_parts in H. destruct H as (_ & _ & H).
  exact (FindGaxWorkRamPointer_region _ _ _ _ H).
Qed.
End Driver.

(* ===================================================================== *)
(** ** The driver on the sample inputs *)
(* ===================================================================== *)

Lemma sample_blocks_wf : wf_blocks (blocks := sample_blocks) = true.
Proof. reflexivity. Qed.

(** No 4-byte window of [m] holds the word [v]. *)
Lemma no_word_anywhere (m : list byte) (v : Z) :
  forallb (fun i => negb (le_combine (firstn 4 (skipn i m)) =? v))
          (List.seq 0 (length m)) = true ->
  forall i, ReadInt32L m i <> Returned v.
Proof.
  intros H i Heq.
  destruct (Nat.leb_spec (i + 4) (length m)) as [Hi|Hi].
  - rewrite ReadInt32L_in_range in Heq by exact Hi.
    assert (Hv : le_combine (firstn 4 (skipn i m)) = v) by congruence.
    rewrite forallb_forall in H.
    assert (Hin : In i (List.seq 0 (length m))) by (apply in_seq; lia).
    specialize (H i Hin). cbv beta in H.
    rewrite Hv, Z.eqb_refl in H. discriminate.
  - unfold ReadInt32L, read_bytes in Heq.
    destruct (Nat.leb_spec (i + 4) (length m)); [lia|discriminate].
Qed.

(** C1, counterexample to the claim as stated. On the sample image, with the
    sample templates and a complete record of a major-2 engine, the install
    succeeds, and no word of the resulting image is
    [gax2_estimate | 1 = 0x8001001]: the non-major-3 template does not get
    the fifth entry point. *)
Lemma InstallGsfDriver_V2_skips_estimate :
  let run :=
    InstallGsfDriver sample_null sample_make_arm_b sample_table
      (blocks := sample_blocks) 0x8000010 sample_null 0 (sample_param 2 3)
      sample_image in
  GaxDriverParam_ok sample_null (sample_param 2 3) = true /\
  snd run = Returned tt /\
  forall i, ReadInt32L (fst run) i
            <> Returned (Z.lor (gax2_estimate (sample_param 2 3)) 1).
Proof.
  split; [reflexivity|]. split; [reflexivity|].
  apply no_word_anywhere. vm_compute. reflexivity.
Qed.

(** Witness of C1: the major-3 install on the sample image holds
    [gax2_estimate | 1] at position 8 of the template copied to offset 16. *)
Lemma InstallGsfDriver_entry_points_witness :
  wf_blocks (blocks := sample_blocks) = true /\
  snd (InstallGsfDriver sample_null sample_make_arm_b sample_table
         (blocks := sample_blocks) 0x8000010 sample_null 0 (sample_param 3 5)
         sample_image) = Returned tt /\
  ReadInt32L
    (fst (InstallGsfDriver sample_null sample_make_arm_b sample_table
            (blocks := sample_blocks) 0x8000010 sample_null 0
            (sample_param 3 5) sample_image))
    (16 + 8)
  = Returned 0x8001001.
Proof.
  split; [reflexivity|]. split; [reflexivity|].
  exact (proj1 (proj1
    (InstallGsfDriver_entry_points sample_null sample_make_arm_b sample_table
       (blocks := sample_blocks) sample_image 0x8000010 sample_null 0
       (sample_param 3 5) eq_refl eq_refl))).
Defined.

(** Witness of C2: a target address in fast RAM is refused with
    invalid-argument and the sample image is left as it was. *)
Lemma InstallGsfDriver_failures_witness :
  is_romptr 0x3000000 = false /\
  (exists what,
      snd (InstallGsfDriver sample_null sample_make_arm_b sample_table
             (blocks := sample_blocks) 0x3000000 sample_null 0
             (sample_param 3 5) sample_image)
      = Thrown (invalid_argument what)) /\
  fst (InstallGsfDriver sample_null sample_make_arm_b sample_table
         (blocks := sample_blocks) 0x3000000 sample_null 0
         (sample_param 3 5) sample_image)
  = sample_image.
Proof.
  pose proof (InstallGsfDriver_failures sample_null sample_make_arm_b
                sample_table (blocks := sample_blocks) sample_image 0x3000000
                sample_null 0 (sample_param 3 5)) as H.
  cbv zeta in H. destruct H as (Hinv & _ & _ & Hsame).
  split; [reflexivity|]. split.
  - apply Hinv. left. reflexivity.
  - destruct (Hinv (or_introl eq_refl)) as [what Hwhat].
    exact (Hsame _ Hwhat).
Defined.

(** Witness of C3: with the detected pointer 0x3000010 the major-3 install
    on the sample image stores the work address 0x3000014 at position 28 of
    the template copied to offset 16. *)
Lemma InstallGsfDriver_work_address_witness :
  wf_blocks (blocks := sample_blocks) = true /\
  0 <= gax_wram_pointer (sample_param 3 5) < 2 ^ 32 /\
  snd (InstallGsfDriver sample_null sample_make_arm_b sample_table
         (blocks := sample_blocks) 0x8000010 sample_null 0 (sample_param 3 5)
         sample_image) = Returned tt /\
  ReadInt32L
    (fst (InstallGsfDriver sample_null sample_make_arm_b sample_table
            (blocks := sample_blocks) 0x8000010 sample_null 0
            (sample_param 3 5) sample_image))
    (16 + 28)
  = Returned 0x3000014.
Proof.
  assert (Hptr : 0 <= gax_wram_pointer (sample_param 3 5) < 2 ^ 32)
    by (split; [discriminate | reflexivity]).
  split; [reflexivity|]. split; [exact Hptr|]. split; [reflexivity|].
  exact (proj1
    (InstallGsfDriver_work_address sample_null sample_make_arm_b sample_table
       (blocks := sample_blocks) sample_image 0x8000010 0 (sample_param 3 5)
       eq_refl Hptr eq_refl)).
Defined.

(** Witness of C6: the major-3 install on the sample image leaves byte 60,
    behind the template block at offsets 16-55, as it was. *)
Lemma InstallGsfDriver_frame_witness :
  wf_blocks (blocks := sample_blocks) = true /\
  snd (InstallGsfDriver sample_null sample_make_arm_b sample_table
         (blocks := sample_blocks) 0x8000010 sample_null 0 (sample_param 3 5)
         sample_image) = Returned tt /\
  nth_error
    (fst (InstallGsfDriver sample_null sample_make_arm_b sample_table
            (blocks := sample_blocks) 0x8000010 sample_null 0
            (sample_param 3 5) sample_image))
    60
  = nth_error sample_image 60.
Proof.
  split; [reflexivity|]. split; [reflexivity|].
  refine (proj2 (proj2
    (InstallGsfDriver_frame sample_null sample_make_arm_b sample_table
       (blocks := sample_blocks) sample_image 0x8000010 sample_null 0
       (sample_param 3 5) eq_refl eq_refl)) 60%nat _ _).
  - apply Nat.leb_le. reflexivity.
  - right. apply Nat.leb_le. reflexivity.
Defined.

(** Witness of C4: from offset 8 of [sample_gax3_image], [FindGax2New]
    returns the ROM address of offset 28, where the first pattern of its list
    first occurs. *)
Lemma finders_first_match_witness :
  first_occurrence sample_gax3_image
    [xf0; xb5; x47; x46; x80; xb4; x81; xb0; x06; x1c; x00; x2e] 8 28 /\
  FindGax2New sample_null sample_gax3_image 8 = 0x800001C.
Proof.
  assert (Hf : first_occurrence sample_gax3_image
                 [xf0; xb5; x47; x46; x80; xb4; x81; xb0; x06; x1c; x00; x2e]
                 8 28)
    by (apply sv_find_Some; reflexivity).
  split; [exact Hf|].
  refine (proj1 (finders_first_match sample_null Gax2New sample_gax3_image 8)
            0%nat _ 28%nat eq_refl _ Hf).
  intros k' pat' Hk'. exfalso. exact (Nat.nlt_0_r _ Hk').
Defined.

(** C5, the failing input. On the 245-byte image whose byte 2 is 0x4c, with
    [gax_play = 0x8000000], the probe of the non-major-3 engines passes its
    bounds check ([0 + 0xf4 < 245]) and then reads the 4 bytes at offset
    0x134 = 308, outside the image. *)
Lemma FindGaxWorkRamPointerV2_reads_past_image :
  length sample_short_image = 245%nat /\
  ReadInt8 sample_short_image 2 = Returned 0x4c /\
  FindGaxWorkRamPointerV2 sample_null sample_short_image 0x8000000
  = OutOfBounds /\
  FindGaxWorkRamPointer sample_null sample_short_image
    {| major_version := 2; minor_version := 1 |} 0x8000000
  = OutOfBounds.
Proof. repeat split; reflexivity. Qed.

(** The same defect reached through [Inspect]: on a 300-byte image that
    holds the GAX 2.1 patterns of [gax2_estimate] and of [gax_play] (found
    at offset 20, its third byte being 0x4c), the probe reads at offset
    20 + 0x134 = 328, outside the image. *)
Lemma Inspect_reads_past_image :
  length sample_gax21_image = 300%nat /\
  FindGaxPlay sample_null sample_gax21_image 0 = 0x8000014 /\
  Inspect sample_null sample_Scan sample_gax21_image = OutOfBounds.
Proof. repeat split; vm_compute; reflexivity. Qed.

(** Witness of C7: the block of the sample track. *)
Lemma NewMinigsfData_block_witness :
  sample_minigsf_ok sample_minigsf_param = true /\
  minigsf_fields_fit sample_minigsf_param /\
  exists data,
    NewMinigsfData sample_minigsf_table sample_minigsf_ok sample_minigsf_param
    = Returned data /\
    length data = 20%nat /\
    ReadInt32L data 0 = Returned 0x8123456.
Proof.
  assert (Hfit : minigsf_fields_fit sample_minigsf_param).
  { unfold minigsf_fields_fit. cbn.
    repeat split; first [discriminate | reflexivity]. }
  split; [reflexivity|]. split; [exact Hfit|].
  destruct (proj1 (NewMinigsfData_block sample_minigsf_table sample_minigsf_ok
                     sample_minigsf_param) eq_refl Hfit)
    as (data & Hd & Hlen & Hsong & _).
  exists data. split; [exact Hd|]. split; [exact Hlen|exact Hsong].
Defined.

(** C9, counterexample to the claim as stated. On the marker followed by
    "v3.05" and a null byte, the marker is found at offset 0; the bytes
    following the marker, cut at the null byte, are "v3.05", but
    [FindGaxVersionText] returns "GAX Sound Engine v3.05": its text starts
    at the marker, not after it. *)
Lemma FindGaxVersionText_keeps_marker :
  first_occurrence sample_version_image kVersionTextPrefixPattern 0 0 /\
  version_text_following_marker sample_version_image 0
  = list_byte_of_string "v3.05" /\
  FindGaxVersionText sample_version_image 0
  = Returned (list_byte_of_string "GAX Sound Engine v3.05") /\
  FindGaxVersionText sample_version_image 0
  <> Returned (version_text_following_marker sample_version_image 0).
Proof.
  split; [apply sv_find_Some; reflexivity|].
  split; [reflexivity|]. split; [reflexivity|].
  vm_compute. discriminate.
Qed.

(** Witness of C9: on the same image the text is the text from the marker
    on. *)
Lemma FindGaxVersionText_from_marker_witness :
  first_occurrence sample_version_image kVersionTextPrefixPattern 0 0 /\
  FindGaxVersionText sample_version_image 0
  = Returned (version_text_from_marker sample_version_image 0).
Proof.
  assert (Hf : first_occurrence sample_version_image
                 kVersionTextPrefixPattern 0 0)
    by (apply sv_find_Some; reflexivity).
  split; [exact Hf|].
  exact (proj2 (FindGaxVersionText_from_marker sample_version_image 0) 0%nat Hf).
Defined.

(** Witness of C10: [Inspect] on [sample_gax3_image] finds [gax2_estimate]
    at offset 8 and [gax2_new] at offset 28, not before it. *)
Lemma Inspect_entries_not_before_estimate_witness :
  Z.of_nat (length sample_gax3_image) <= 0x2000000 /\
  Inspect sample_null sample_Scan sample_gax3_image
  = Returned sample_inspected /\
  gax2_estimate sample_inspected <> sample_null /\
  (gax2_new sample_inspected = sample_null \/
   to_offset (gax2_estimate sample_inspected)
   <= to_offset (gax2_new sample_inspected)).
Proof.
  assert (Hlen : Z.of_nat (length sample_gax3_image) <= 0x2000000)
    by (vm_compute; discriminate).
  assert (Hest : gax2_estimate sample_inspected <> sample_null)
    by (vm_compute; discriminate).
  split; [exact Hlen|]. split; [vm_compute; reflexivity|].
  split; [exact Hest|].
  exact (proj1
    (Inspect_entries_not_before_estimate sample_null sample_Scan
       sample_gax3_image sample_inspected Hlen eq_refl Hest)).
Defined.

(* ===================================================================== *)
(** ** The further facts on the sample inputs *)
(* ===================================================================== *)

(** Witness of X1: on the empty image [FindGax2New] returns null. *)
Lemma finder_short_image_witness :
  (length (@nil byte) < 0 + pattern_length Gax2New)%nat /\
  FindGax2New sample_null [] 0 = sample_null.
Proof.
  assert (H : (length (@nil byte) < 0 + pattern_length Gax2New)%nat)
    by (apply Nat.ltb_lt; reflexivity).
  split; [exact H|].
  exact (finder_short_image sample_null Gax2New [] 0%nat H).
Defined.

(** Witness of X2: on [sample_gax3_image] the scan of [FindGax2New] from
    offset 0 stops at 28, and so does the scan from offset 8. *)
Lemma finder_lower_bound_witness :
  find_patterns sample_gax3_image 0 (patterns_of Gax2New) = Some 28%nat /\
  FindGax2New sample_null sample_gax3_image 8
  = FindGax2New sample_null sample_gax3_image 0.
Proof.
  split; [reflexivity|].
  refine (proj1 (finder_lower_bound sample_null Gax2New sample_gax3_image
                   0%nat 8%nat) 28%nat eq_refl _).
  split; apply Nat.leb_le; reflexivity.
Defined.

(** Witness of X5: on 245 zero bytes the probe reads the byte 0 at offset 2
    and then the word at offset 0xf0. *)
Lemma FindGaxWorkRamPointerV2_in_bounds_witness :
  ReadInt8 sample_zero_image (Z.to_nat (to_offset 0x8000000 + 2))
  <> Returned 0x4c /\
  exists ptr,
    FindGaxWorkRamPointerV2 sample_null sample_zero_image 0x8000000
    = Returned ptr.
Proof.
  assert (H : ReadInt8 sample_zero_image (Z.to_nat (to_offset 0x8000000 + 2))
              <> Returned 0x4c) by (vm_compute; discriminate).
  split; [exact H|].
  destruct (FindGaxWorkRamPointerV2_in_bounds sample_null sample_zero_image
              0x8000000 (or_introl H)) as (ptr & Hptr & _).
  exists ptr. exact Hptr.
Defined.

(** Witness of X7: [sample_gax3_image] holds no pattern of [gax_play]. *)
Lemma Inspect_returns_witness :
  FindGaxPlay sample_null sample_gax3_image
    (Z.to_nat (to_offset (FindGax2Estimate sample_null sample_gax3_image 0)))
  = sample_null /\
  exists param,
    Inspect sample_null sample_Scan sample_gax3_image = Returned param.
Proof.
  assert (H : FindGaxPlay sample_null sample_gax3_image
                (Z.to_nat (to_offset
                             (FindGax2Estimate sample_null sample_gax3_image 0)))
              = sample_null) by (vm_compute; reflexivity).
  split; [exact H|].
  exact (Inspect_returns sample_null sample_Scan sample_gax3_image
           (or_introl H)).
Defined.

(** Witness of X8: [sample_gax3_image] does not hold the marker. *)
Lemma Inspect_without_marker_witness :
  (forall j, ~ occurs_at sample_gax3_image kVersionTextPrefixPattern j) /\
  Inspect sample_null sample_Scan sample_gax3_image
  = Returned sample_inspected /\
  version sample_inspected = GaxVersion_unknown.
Proof.
  assert (Hno : forall j,
             ~ occurs_at sample_gax3_image kVersionTextPrefixPattern j).
  { intros j. apply (sv_find_None sample_gax3_image kVersionTextPrefixPattern 0);
      [reflexivity | apply Nat.le_0_l]. }
  assert (Hins : Inspect sample_null sample_Scan sample_gax3_image
                 = Returned sample_inspected) by (vm_compute; reflexivity).
  split; [exact Hno|]. split; [exact Hins|].
  exact (proj1 (proj2
    (Inspect_without_marker sample_null sample_Scan sample_gax3_image
       sample_inspected Hno Hins))).
Defined.

(** Witness of X9: the major-3 install on the sample image, done twice. *)
Lemma InstallGsfDriver_idempotent_witness :
  snd (InstallGsfDriver sample_null sample_make_arm_b sample_table
         (blocks := sample_blocks) 0x8000010 sample_null 0 (sample_param 3 5)
         sample_image) = Returned tt /\
  InstallGsfDriver sample_null sample_make_arm_b sample_table
    (blocks := sample_blocks) 0x8000010 sample_null 0 (sample_param 3 5)
    (fst (InstallGsfDriver sample_null sample_make_arm_b sample_table
            (blocks := sample_blocks) 0x8000010 sample_null 0
            (sample_param 3 5) sample_image))
  = (fst (InstallGsfDriver sample_null sample_make_arm_b sample_table
            (blocks := sample_blocks) 0x8000010 sample_null 0
            (sample_param 3 5) sample_image),
     Returned tt).
Proof.
  split; [reflexivity|].
  exact (InstallGsfDriver_idempotent sample_null sample_make_arm_b sample_table
           (blocks := sample_blocks) sample_image 0x8000010 sample_null 0
           (sample_param 3 5) eq_refl).
Defined.

(** Witness of X10: with the sample templates, the install at the last
    8 bytes of the sample image throws and does not leave the image. *)
Lemma InstallGsfDriver_in_bounds_witness :
  wf_blocks (blocks := sample_blocks) = true /\
  snd (InstallGsfDriver sample_null sample_make_arm_b sample_table
         (blocks := sample_blocks) 0x8000038 sample_null 0 (sample_param 3 5)
         sample_image) <> OutOfBounds.
Proof.
  split; [reflexivity|].
  exact (proj1
    (InstallGsfDriver_in_bounds sample_null sample_make_arm_b sample_table
       (blocks := sample_blocks) sample_image 0x8000038 sample_null 0
       (sample_param 3 5) eq_refl)).
Defined.

(** Witness of X11: the major-2 install on the sample image with the work
    address 0x2000000 in external RAM. *)
Lemma InstallGsfDriver_explicit_work_address_witness :
  wf_blocks (blocks := sample_blocks) = true /\
  0x2000000 <> sample_null /\
  snd (InstallGsfDriver sample_null sample_make_arm_b sample_table
         (blocks := sample_blocks) 0x8000010 0x2000000 0 (sample_param 2 3)
         sample_image) = Returned tt /\
  ReadInt32L
    (fst (InstallGsfDriver sample_null sample_make_arm_b sample_table
            (blocks := sample_blocks) 0x8000010 0x2000000 0
            (sample_param 2 3) sample_image))
    (16 + 24)
  = Returned 0x2000000.
Proof.
  assert (Hnn : 0x2000000 <> sample_null) by discriminate.
  split; [reflexivity|]. split; [exact Hnn|]. split; [reflexivity|].
  exact (InstallGsfDriver_explicit_work_address sample_null sample_make_arm_b
           sample_table (blocks := sample_blocks) sample_image 0x8000010
           0x2000000 0 (sample_param 2 3) eq_refl Hnn eq_refl).
Defined.

(** Witness of X12: version 3.05 gets the byte 0x30. *)
Lemma InstallGsfDriver_fx_immediate_witness :
  wf_blocks (blocks := sample_blocks) = true /\
  major_version (version (sample_param 3 5)) = 3 /\
  snd (InstallGsfDriver sample_null sample_make_arm_b sample_table
         (blocks := sample_blocks) 0x8000010 sample_null 0 (sample_param 3 5)
         sample_image) = Returned tt /\
  ReadInt8
    (fst (InstallGsfDriver sample_null sample_make_arm_b sample_table
            (blocks := sample_blocks) 0x8000010 sample_null 0
            (sample_param 3 5) sample_image))
    (16 + 4)
  = Returned 0x30.
Proof.
  split; [reflexivity|]. split; [reflexivity|]. split; [reflexivity|].
  exact (InstallGsfDriver_fx_immediate sample_null sample_make_arm_b
           sample_table (blocks := sample_blocks) sample_image 0x8000010
           sample_null 0 (sample_param 3 5) eq_refl eq_refl eq_refl).
Defined.

(** Witness of X13: the major-2 install with the work size 0x1000. *)
Lemma InstallGsfDriver_work_size_witness :
  major_version (version (sample_param 2 3)) <> 3 /\
  wf_blocks (blocks := sample_blocks) = true /\
  snd (InstallGsfDriver sample_null sample_make_arm_b sample_table
         (blocks := sample_blocks) 0x8000010 sample_null 0x1000
         (sample_param 2 3) sample_image) = Returned tt /\
  ReadInt32L
    (fst (InstallGsfDriver sample_null sample_make_arm_b sample_table
            (blocks := sample_blocks) 0x8000010 sample_null 0x1000
            (sample_param 2 3) sample_image))
    (16 + 28)
  = Returned 0x1000.
Proof.
  assert (Hm : major_version (version (sample_param 2 3)) <> 3)
    by discriminate.
  split; [exact Hm|]. split; [reflexivity|]. split; [reflexivity|].
  exact (proj2
    (InstallGsfDriver_work_size sample_null sample_make_arm_b sample_table
       (blocks := sample_blocks) sample_image 0x8000010 sample_null 0x1000
       (sample_param 2 3)) Hm eq_refl eq_refl).
Defined.

(** Witness of X14: byte 0 of the major-3 sample template, copied to
    offset 16. *)
Lemma InstallGsfDriver_template_verbatim_witness :
  wf_blocks (blocks := sample_blocks) = true /\
  snd (InstallGsfDriver sample_null sample_make_arm_b sample_table
         (blocks := sample_blocks) 0x8000010 sample_null 0 (sample_param 3 5)
         sample_image) = Returned tt /\
  nth_error
    (fst (InstallGsfDriver sample_null sample_make_arm_b sample_table
            (blocks := sample_blocks) 0x8000010 sample_null 0
            (sample_param 3 5) sample_image))
    (16 + 0)
  = Some xcc.
Proof.
  split; [reflexivity|]. split; [reflexivity|].
  refine (InstallGsfDriver_template_verbatim sample_null sample_make_arm_b
            sample_table (blocks := sample_blocks) sample_image 0x8000010
            sample_null 0 (sample_param 3 5) 0%nat eq_refl eq_refl _ _ _).
  - apply Nat.ltb_lt. reflexivity.
  - apply Nat.leb_le. reflexivity.
  - intros s Hs. left. cbn in Hs.
    repeat (destruct Hs as [<-|Hs]; [apply Nat.ltb_lt; reflexivity|]).
    destruct Hs.
Defined.

(** Witness of X15: the sample record, whose detected pointer is
    0x3000010. *)
Lemma resolve_work_address_default_range_witness :
  0 <= gax_wram_pointer (sample_param 3 5) /\
  0x3000000 <= resolve_work_address sample_null sample_null (sample_param 3 5)
  <= 0x3004003.
Proof.
  assert (H : 0 <= gax_wram_pointer (sample_param 3 5)) by discriminate.
  split; [exact H|].
  exact (resolve_work_address_default_range sample_null (sample_param 3 5) H).
Defined.

(** Witness of X16: the sample track without an effect and with an effect
    at address 0 serialize to the same block. *)
Lemma NewMinigsfData_injective_witness :
  sample_minigsf_ok sample_minigsf_param = true /\
  sample_minigsf_ok sample_minigsf_param_fx0 = true /\
  minigsf_fields_fit sample_minigsf_param /\
  minigsf_fields_fit sample_minigsf_param_fx0 /\
  NewMinigsfData sample_minigsf_table sample_minigsf_ok sample_minigsf_param
  = NewMinigsfData sample_minigsf_table sample_minigsf_ok
      sample_minigsf_param_fx0 /\
  fxid sample_minigsf_param = fxid sample_minigsf_param_fx0.
Proof.
  assert (Hp : minigsf_fields_fit sample_minigsf_param).
  { unfold minigsf_fields_fit. cbn.
    repeat split; first [discriminate | reflexivity]. }
  assert (Hq : minigsf_fields_fit sample_minigsf_param_fx0).
  { unfold minigsf_fields_fit. cbn.
    repeat split; first [discriminate | reflexivity]. }
  assert (Heq : NewMinigsfData sample_minigsf_table sample_minigsf_ok
                  sample_minigsf_param
                = NewMinigsfData sample_minigsf_table sample_minigsf_ok
                    sample_minigsf_param_fx0) by (vm_compute; reflexivity).
  split; [reflexivity|]. split; [reflexivity|]. split; [exact Hp|].
  split; [exact Hq|]. split; [exact Heq|].
  exact (proj1 (proj2 (proj2
    (NewMinigsfData_injective sample_minigsf_table sample_minigsf_ok
       sample_minigsf_param sample_minigsf_param_fx0 eq_refl eq_refl Hp Hq
       Heq)))).
Defined.

(** Witness of X17: the major-2 install on the sample image, with
    [gax2_estimate] changed to 0x8009000. *)
Lemma InstallGsfDriver_V2_ignores_estimate_witness :
  (major_version (version (sample_param 2 3)) =? 3) = false /\
  GaxDriverParam_ok sample_null (sample_param 2 3) = true /\
  GaxDriverParam_ok sample_null
    (set_gax2_estimate (sample_param 2 3) 0x8009000) = true /\
  InstallGsfDriver sample_null sample_make_arm_b sample_table
    (blocks := sample_blocks) 0x8000010 sample_null 0
    (set_gax2_estimate (sample_param 2 3) 0x8009000) sample_image
  = InstallGsfDriver sample_null sample_make_arm_b sample_table
      (blocks := sample_blocks) 0x8000010 sample_null 0 (sample_param 2 3)
      sample_image.
Proof.
  split; [reflexivity|]. split; [reflexivity|]. split; [reflexivity|].
  exact (InstallGsfDriver_V2_ignores_estimate sample_null sample_make_arm_b
           sample_table (blocks := sample_blocks) sample_image 0x8000010
           sample_null 0 (sample_param 2 3) 0x8009000 eq_refl eq_refl eq_refl).
Defined.

(** Witness of X18: [FindGax2New] from offset 8 of [sample_gax3_image]. *)
Lemma finder_result_inside_image_witness :
  Z.of_nat (length sample_gax3_image) <= 0x2000000 /\
  FindGax2New sample_null sample_gax3_image 8 <> sample_null /\
  (8 <= Z.to_nat (to_offset (FindGax2New sample_null sample_gax3_image 8)))%nat.
Proof.
  assert (Hlen : Z.of_nat (length sample_gax3_image) <= 0x2000000)
    by (vm_compute; discriminate).
  assert (Hnn : FindGax2New sample_null sample_gax3_image 8 <> sample_null)
    by (vm_compute; discriminate).
  split; [exact Hlen|]. split; [exact Hnn|].
  exact (proj1
    (finder_result_inside_image sample_null Gax2New sample_gax3_image 8%nat
       Hlen Hnn)).
Defined.

(** Witness of X19: the record of [sample_gax3_image] has a null work-RAM
    pointer. *)
Lemma Inspect_wram_pointer_region_witness :
  Inspect sample_null sample_Scan sample_gax3_image
  = Returned sample_inspected /\
  (gax_wram_pointer sample_inspected = sample_null \/
   is_ewramptr (gax_wram_pointer sample_inspected) = true \/
   is_iwramptr (gax_wram_pointer sample_inspected) = true).
Proof.
  assert (Hins : Inspect sample_null sample_Scan sample_gax3_image
                 = Returned sample_inspected) by (vm_compute; reflexivity).
  split; [exact Hins|].
  exact (Inspect_wram_pointer_region sample_null sample_Scan
           sample_gax3_image sample_inspected Hins).
Defined.

(* ===================================================================== *)
(** ** An image longer than the ROM window *)
(* ===================================================================== *)

(** A scan that starts at position [i] reports what the scan from 0 reports,
    moved by [i]. *)
Lemma find_from_shift (pat s : list byte) (i : nat) :
  find_from pat s i = option_map (Nat.add i) (find_from pat s 0).
Proof.
  revert i. induction s as [|c s IH]; intros i; cbn [find_from].
  - destruct (starts_with pat []); cbn [option_map]; [|reflexivity].
    rewrite Nat.add_0_r. reflexivity.
  - destruct (starts_with pat (c :: s)); cbn [option_map].
    + rewrite Nat.add_0_r. reflexivity.
    + rewrite (IH (S i)), (IH 1%nat).
      destruct (find_from pat s 0) as [j|]; cbn [option_map]; [|reflexivity].
      f_equal. lia.
Qed.

(** A pattern whose first byte is not zero does not start inside a run of
    zero bytes. *)
Lemma find_from_zeros (c : byte) (pat tail : list byte) (n i : nat) :
  c <> x00 ->
  find_from (c :: pat) (repeat x00 n ++ tail) i
  = find_from (c :: pat) tail (i + n).
Proof.
  intros Hc. revert i. induction n as [|n IH]; intros i.
  - cbn [repeat app]. rewrite Nat.add_0_r. reflexivity.
  - cbn [repeat app find_from starts_with].
    assert (E : Byte.eqb c x00 = false).
    { destruct (Byte.eqb c x00) eqn:E; [|reflexivity].
      apply Byte.byte_dec_bl in E. contradiction. }
    rewrite E. cbn [andb]. rewrite IH. f_equal. lia.
Qed.

Lemma skipn_repeat_app (tail : list byte) (k pos : nat) :
  (pos <= k)%nat ->
  skipn pos (repeat x00 k ++ tail) = repeat x00 (k - pos) ++ tail.
Proof.
  intros H. replace k with (pos + (k - pos))%nat at 1 by lia.
  rewrite repeat_app, <- app_assoc.
  rewrite skipn_app, repeat_length, Nat.sub_diag.
  rewrite skipn_all2 by (rewrite repeat_length; lia).
  reflexivity.
Qed.

Lemma sv_find_zeros (c : byte) (pat tail : list byte) (k pos : nat) :
  c <> x00 -> (pos <= k)%nat ->
  sv_find (repeat x00 k ++ tail) (c :: pat) pos
  = option_map (Nat.add k) (sv_find tail (c :: pat) 0).
Proof.
  intros Hc Hpos. unfold sv_find.
  rewrite length_app, repeat_length.
  destruct (Nat.leb_spec pos (k + length tail)) as [_|H]; [|lia].
  rewrite skipn_repeat_app by exact Hpos.
  rewrite find_from_zeros by exact Hc.
  replace (pos + (k - pos))%nat with k by lia.
  cbn [Nat.leb skipn]. apply find_from_shift.
Qed.

Lemma find_patterns_zeros (patterns : list (list byte)) (tail : list byte)
  (k pos : nat) :
  nonzero_heads patterns = true -> (pos <= k)%nat ->
  find_patterns (repeat x00 k ++ tail) pos patterns
  = option_map (Nat.add k) (find_patterns tail 0 patterns).
Proof.
  intros Hnz Hpos.
  induction patterns as [|pattern rest IH]; [reflexivity|].
  cbn [nonzero_heads forallb] in Hnz. apply andb_true_iff in Hnz.
  destruct Hnz as [Hhead Hrest].
  destruct pattern as [|c pat]; [discriminate|].
  assert (Hc : c <> x00).
  { intros ->. discriminate. }
  cbn [find_patterns]. rewrite (sv_find_zeros c pat tail k pos Hc Hpos).
  destruct (sv_find tail (c :: pat) 0); cbn [option_map]; [reflexivity|].
  apply IH. exact Hrest.
Qed.

(** What [Inspect] finds in an image of [k] zero bytes followed by
    [sample_tail], when [k] is the size of the ROM window. *)
Lemma Inspect_zeros_then_tail (k : nat) :
  Z.of_nat k = 0x2000000 ->
  Inspect sample_null sample_Scan (repeat x00 k ++ sample_tail)
  = Returned {| version_text := [];
                version := GaxVersion_unknown;
                gax2_estimate := 0x8000032;
                gax2_new := 0x8000000;
                gax2_init := sample_null;
                gax_irq := sample_null;
                gax_play := sample_null;
                gax_wram_pointer := sample_null;
                songs := [] |}.
Proof.
  intros Hk.
  set (rom := repeat x00 k ++ sample_tail).
  assert (Hscan : forall patterns pos,
             nonzero_heads patterns = true -> (pos <= 50)%nat ->
             find_patterns rom pos patterns
             = option_map (Nat.add k) (find_patterns sample_tail 0 patterns)).
  { intros patterns pos Hnz Hpos. apply find_patterns_zeros; [exact Hnz|lia]. }
  assert (Htext : FindGaxVersionText rom 0 = Returned []).
  { apply FindGaxVersionText_not_found.
    change kVersionTextPrefixPattern
      with (x47 :: list_byte_of_string "AX Sound Engine ").
    unfold rom. rewrite sv_find_zeros by (discriminate || lia).
    reflexivity. }
  assert (Hest : FindGax2Estimate sample_null rom 0 = 0x8000032).
  { unfold FindGax2Estimate, find_entry.
    rewrite Hscan by (reflexivity || lia).
    change (find_patterns sample_tail 0 FindGax2Estimate_patterns)
      with (Some 50%nat).
    cbn [option_map]. rewrite Nat2Z.inj_add, Hk. reflexivity. }
  assert (Hnew : FindGax2New sample_null rom 50 = 0x8000000).
  { unfold FindGax2New, find_entry.
    rewrite Hscan by (reflexivity || lia).
    change (find_patterns sample_tail 0 FindGax2New_patterns)
      with (Some 0%nat).
    cbn [option_map]. rewrite Nat2Z.inj_add, Hk. reflexivity. }
  assert (Hinit : FindGax2Init sample_null rom 50 = sample_null).
  { unfold FindGax2Init, find_entry.
    rewrite Hscan by (reflexivity || lia). reflexivity. }
  assert (Hirq : FindGaxIrq sample_null rom 50 = sample_null).
  { unfold FindGaxIrq, find_entry.
    rewrite Hscan by (reflexivity || lia). reflexivity. }
  assert (Hplay : FindGaxPlay sample_null rom 50 = sample_null).
  { unfold FindGaxPlay, find_entry.
    rewrite Hscan by (reflexivity || lia). reflexivity. }
  unfold Inspect. rewrite Htext. cbn [bind].
  change (ParseVersionText []) with (Returned GaxVersion_unknown).
  cbn [bind]. rewrite Hest.
  change (Z.to_nat (to_offset 0x8000032)) with 50%nat.
  rewrite Hnew, Hinit, Hirq, Hplay. reflexivity.
Qed.

Lemma length_sample_large_image :
  Z.of_nat (length sample_large_image) = 0x2000140.
Proof.
  unfold sample_large_image. rewrite length_app, repeat_length.
  rewrite Nat2Z.inj_add. unfold rom_window.
  rewrite Z2Nat.id by discriminate. reflexivity.
Qed.

(** C10, counterexample: an image longer than the ROM window, on which
    [Inspect] finds [gax2_new] at a ROM offset below that of
    [gax2_estimate]. [sample_large_image] has 0x2000140 bytes; the pattern
    of [gax2_estimate] occurs once, at position 0x2000032, so the address is
    0x8000032 and the other scans start at its ROM offset, 0x32. The first
    match of [gax2_new] at or after 0x32 is at position 0x2000000, whose
    address is 0x8000000: ROM offset 0, below 0x32. *)
Lemma Inspect_entry_before_estimate :
  exists param : GaxDriverParam,
    Z.of_nat (length sample_large_image) = 0x2000140 /\
    Inspect sample_null sample_Scan sample_large_image = Returned param /\
    gax2_estimate param = 0x8000032 /\
    gax2_estimate param <> sample_null /\
    gax2_new param = 0x8000000 /\
    to_offset (gax2_estimate param) = 0x32 /\
    to_offset (gax2_new param) = 0 /\
    ~ (gax2_new param = sample_null \/
       to_offset (gax2_estimate param) <= to_offset (gax2_new param)).
Proof.
  eexists. split; [exact length_sample_large_image|].
  split.
  { unfold sample_large_image. apply Inspect_zeros_then_tail.
    unfold rom_window. apply Z2Nat.id. discriminate. }
  cbn [gax2_estimate gax2_new].
  split; [reflexivity|]. split; [discriminate|].
  split; [reflexivity|]. split; [reflexivity|]. split; [reflexivity|].
  intros [H|H]; [discriminate H | apply H; reflexivity].
Qed.
